(** * A shallow embedding of the snippet bot of rphashtagbot (bot.py)

    The bot keeps snippets in the directory [snips/]: a text artifact
    [{key}.md] or [{key}.html], media files [{key}_{idx}{ext}] and one
    mapping file [meta.yaml] from keys to forward references.  Inbound
    messages are answered by [handle_message]; the commands [/save]
    ([/saveng]) and [/savespicy] are [handle_save] and [handle_savespicy].

    Modelling choices:
    - strings are Rocq [string]s (ASCII): Python's [str.lower], [\w] and
      [str.strip] are modelled on ASCII characters;
    - the snippet directory is a [gmap string string] from file names to
      contents (a flat directory of regular files);
    - [meta.yaml] is [option (gmap string fref)]: [None] when the file is
      missing or does not parse, which every reader of it maps to [{}];
    - the Telegram calls a handler makes are a trace of [send]s (and, for
      the save commands, of downloads and audit commits), in call order. *)

From Stdlib Require Import ZArith Ascii String.
From Stdlib Require Import Numbers.DecimalString.
From stdpp Require Import base list gmap strings sorting.

Open Scope string_scope.

(* ------------------------------------------------------------------ *)
(** ** Characters and strings *)

Definition ascii_between (lo hi c : ascii) : bool :=
  (nat_of_ascii lo <=? nat_of_ascii c)%nat && (nat_of_ascii c <=? nat_of_ascii hi)%nat.

(** [\w] of Python's [re] (ASCII letters, digits and underscore). *)
Definition is_word_char (c : ascii) : bool :=
  ascii_between "a" "z" c || ascii_between "A" "Z" c
  || ascii_between "0" "9" c || Ascii.eqb c "_".

(** The character class [[\w-]] of [HASHTAG_RE]. *)
Definition is_tag_char (c : ascii) : bool := is_word_char c || Ascii.eqb c "-".

Definition ascii_lower (c : ascii) : ascii :=
  if ascii_between "A" "Z" c then ascii_of_nat (nat_of_ascii c + 32) else c.

Fixpoint str_map (f : ascii -> ascii) (s : string) : string :=
  match s with
  | EmptyString => EmptyString
  | String c s' => String (f c) (str_map f s')
  end.

(** [str.lower]. *)
Definition lower (s : string) : string := str_map ascii_lower s.

Definition str_elem (c : ascii) (s : string) : bool :=
  existsb (Ascii.eqb c) (list_ascii_of_string s).

Definition is_space (c : ascii) : bool := Ascii.is_space c.

Fixpoint lstrip (s : string) : string :=
  match s with
  | EmptyString => EmptyString
  | String c s' => if is_space c then lstrip s' else s
  end.

(** [str.strip]. *)
Definition strip (s : string) : string :=
  String.rev (lstrip (String.rev (lstrip s))).

(** ['\n'.join(parts)]. *)
Fixpoint join_nl (parts : list string) : string :=
  match parts with
  | [] => ""
  | [p] => p
  | p :: ps => p +:+ String "010" (join_nl ps)
  end.

Definition string_of_Z (z : Z) : string := NilEmpty.string_of_int (Z.to_int z).
Definition string_of_nat (n : nat) : string := string_of_Z (Z.of_nat n).

Fixpoint starts_with (p s : string) : bool :=
  match p, s with
  | EmptyString, _ => true
  | String a p', String b s' => Ascii.eqb a b && starts_with p' s'
  | String _ _, EmptyString => false
  end.

Definition ends_with (p s : string) : bool :=
  starts_with (String.rev p) (String.rev s).

(* ------------------------------------------------------------------ *)
(** ** [extract_hashtags]: [HASHTAG_RE.findall] with [#([\w-]+)], lowered *)

(** One scan of [findall]: [cur] is the (reversed) tag being read after a
    [#], if any.  A [#] not followed by a tag character matches nothing
    and the scan resumes at the next character, as [findall] does. *)
Definition flush_tag (cur : option string) (rest : list string) : list string :=
  match cur with
  | Some (String _ _ as acc) => String.rev acc :: rest
  | _ => rest
  end.

Fixpoint hashtag_go (cur : option string) (s : string) : list string :=
  match s with
  | EmptyString => flush_tag cur []
  | String c s' =>
      match cur with
      | Some acc =>
          if is_tag_char c then hashtag_go (Some (String c acc)) s'
          else flush_tag cur
                 (if Ascii.eqb c "#" then hashtag_go (Some "") s' else hashtag_go None s')
      | None =>
          if Ascii.eqb c "#" then hashtag_go (Some "") s' else hashtag_go None s'
      end
  end.

Definition extract_hashtags (text : string) : list string :=
  map lower (hashtag_go None text).

(* ------------------------------------------------------------------ *)
(** ** MarkdownV2 escaping *)

(** [telegram.helpers.escape_markdown(text, version=2)]: every character of
    this set is prefixed with a backslash. *)
Definition md_v2_escape_chars : string := "\_*[]()~`>#+-=|{}.!".

Fixpoint escape_by (esc : ascii -> bool) (s : string) : string :=
  match s with
  | EmptyString => EmptyString
  | String c s' =>
      if esc c then String "\" (String c (escape_by esc s'))
      else String c (escape_by esc s')
  end.

Definition escape_markdown_v2 (s : string) : string :=
  escape_by (fun c => str_elem c md_v2_escape_chars) s.

(** [text.replace('\\' + ch, ch)]: leftmost, non-overlapping occurrences. *)
Fixpoint unescape_one (ch : ascii) (s : string) : string :=
  match s with
  | EmptyString => EmptyString
  | String x tl =>
      if Ascii.eqb x "\" then
        match tl with
        | String c rest =>
            if Ascii.eqb c ch then String c (unescape_one ch rest)
            else String x (unescape_one ch tl)
        | EmptyString => String x EmptyString
        end
      else String x (unescape_one ch tl)
  end.

(** The loop [for ch in '*_[]()': text = text.replace(f'\\{ch}', ch)]. *)
Definition kept_markup : string := "*_[]()".

Fixpoint unescape_each (chs : string) (s : string) : string :=
  match chs with
  | EmptyString => s
  | String ch chs' => unescape_each chs' (unescape_one ch s)
  end.

(** The text or caption sent for a markdown body (lines 224-226, 237-239). *)
Definition md_escape (s : string) : string :=
  unescape_each kept_markup (escape_markdown_v2 s).

Example extract_hashtags_ex :
  extract_hashtags "see #Cat and ##dog-2, # x #a#b" = ["cat"; "dog-2"; "a"; "b"].
Proof. reflexivity. Qed.

Example md_escape_ex : md_escape "*bold* [x](y) a.b\*" = "*bold* [x](y) a\.b\\*".
Proof. reflexivity. Qed.

(* ------------------------------------------------------------------ *)
(** ** Paths: [Path.suffix] and [Path.stem] of a file name *)

Fixpoint str_take (k : nat) (s : string) : string :=
  match k, s with
  | O, _ => EmptyString
  | S k', String c s' => String c (str_take k' s')
  | S _, EmptyString => EmptyString
  end.

Fixpoint str_drop (k : nat) (s : string) : string :=
  match k, s with
  | O, _ => s
  | S k', String _ s' => str_drop k' s'
  | S _, EmptyString => EmptyString
  end.

Fixpoint str_index (c : ascii) (s : string) : option nat :=
  match s with
  | EmptyString => None
  | String x s' => if Ascii.eqb x c then Some O else option_map S (str_index c s')
  end.

(** [(Path(name).stem, Path(name).suffix)]: with [i = name.rfind('.')],
    the split is at [i] when [0 < i < len(name) - 1]; [j] below is the
    distance of that dot from the end of the name. *)
Definition split_suffix (name : string) : string * string :=
  let r := String.rev name in
  match str_index "." r with
  | Some j =>
      if (1 <=? j)%nat && (j + 2 <=? String.length name)%nat
      then (String.rev (str_drop (S j) r), String.rev (str_take (S j) r))
      else (name, "")
  | None => (name, "")
  end.

Definition path_stem (name : string) : string := fst (split_suffix name).
Definition path_suffix (name : string) : string := snd (split_suffix name).

(** [s.split(c, 1)[1]] when [c in s]. *)
Fixpoint after_first (c : ascii) (s : string) : option string :=
  match s with
  | EmptyString => None
  | String x s' => if Ascii.eqb x c then Some s' else after_first c s'
  end.

(* ------------------------------------------------------------------ *)
(** ** The snippet store *)

(** A forward reference in [meta.yaml]: [{chat_id: .., message_id: ..}]. *)
Record fref := mk_fref { ref_chat_id : Z; ref_message_id : Z }.

(** The directory [snips/] (file name to contents) and [meta.yaml]. *)
Record store := mk_store {
  snips : gmap string string;
  meta : option (gmap string fref)
}.

(** [yaml.safe_load(META_FILE.read_text()) or {}], [{}] on any failure. *)
Definition load_meta (st : store) : gmap string fref := default ∅ (meta st).

Definition load_snip_md (st : store) (hashtag : string) : option string :=
  snips st !! (hashtag +:+ ".md").

Definition load_snip_html (st : store) (hashtag : string) : option string :=
  snips st !! (hashtag +:+ ".html").

Definition file_exists (st : store) (name : string) : bool :=
  match snips st !! name with Some _ => true | None => false end.

(** The directory listing, in the (unspecified) order of [os.scandir]. *)
Definition dir_names (st : store) : list string := map fst (map_to_list (snips st)).

(** [sorted(SNIPS.glob(f"{tag}_*"))]; keys hold no glob metacharacter. *)
Definition glob_media (st : store) (tag : string) : list string :=
  merge_sort String.le (List.filter (starts_with (tag +:+ "_")) (dir_names st)).

(** The glob ['spicy-*.html']. *)
Definition glob_spicy_html (name : string) : bool :=
  starts_with "spicy-" name && ends_with ".html" (str_drop 6 name).

(** [load_spicy_triggers]. *)
Definition load_spicy_triggers (st : store) : list string :=
  flat_map (fun p =>
      if glob_spicy_html p then
        match after_first "-" (path_stem p) with
        | Some w => [lower w]
        | None => []
        end
      else [])
    (dir_names st).

(* ------------------------------------------------------------------ *)
(** ** [extract_spicy_triggers]: [re.search(rf"\b{re.escape(t)}\b", text_lc)] *)

Definition word_at (s : list ascii) (i : nat) : bool :=
  match s !! i with Some c => is_word_char c | None => false end.

(** [\b] at position [i]: a word character on exactly one side. *)
Definition boundary (s : list ascii) (i : nat) : bool :=
  let before := match i with O => false | S k => word_at s k end in
  negb (Bool.eqb before (word_at s i)).

Definition search_word (t s : string) : bool :=
  let ls := list_ascii_of_string s in
  existsb (fun i => boundary ls i && starts_with t (str_drop i s)
                    && boundary ls (i + String.length t))
          (seq 0 (S (length ls))).

Definition extract_spicy_triggers (text : string) (triggers : list string) : list string :=
  let text_lc := lower text in
  List.filter (fun t => search_word t text_lc) triggers.

(* ------------------------------------------------------------------ *)
(** ** Outbound Telegram calls *)

Inductive media_kind := Photo | Video | Audio | Document.
Inductive parse_mode := HTML | MarkdownV2.

(** An [InputMedia*] item: its kind, the file sent, caption, parse mode. *)
Record media_item := mk_item {
  mi_kind : media_kind;
  mi_file : string;
  mi_caption : option string;
  mi_parse_mode : option parse_mode
}.

Inductive send :=
  | CopyMessage (chat_id from_chat_id message_id reply_to : Z)
  | SendVoice (chat_id : Z) (voice : string) (caption : option string)
      (pm : option parse_mode) (reply_to : Z)
  | SendMediaGroup (chat_id : Z) (media : list media_item) (reply_to : Z)
  | SendMessage (chat_id : Z) (text : string) (pm : option parse_mode)
      (reply_to : option Z).

Definition ext_in (ext : string) (l : list string) : bool := existsb (String.eqb ext) l.

Definition is_voice_ext (ext : string) : bool := ext_in ext [".oga"; ".ogg"; ".opus"].

(** The [if ext in ...] chain choosing the [InputMedia*] class. *)
Definition media_kind_of_ext (ext : string) : media_kind :=
  if ext_in ext [".jpg"; ".jpeg"; ".png"; ".gif"] then Photo
  else if ext_in ext [".mp4"; ".mov"; ".mkv"; ".webm"] then Video
  else if is_voice_ext ext then Audio
  else Document.

Definition file_ext (name : string) : string := lower (path_suffix name).

Definition nonempty (s : string) : bool :=
  match s with EmptyString => false | String _ _ => true end.

(* ------------------------------------------------------------------ *)
(** ** [parse_markdown_media]: [MEDIA_RE.sub(repl, md_text)] *)

(** The characters up to the first [stop] and what follows that [stop]. *)
Fixpoint read_until (stop : ascii) (s : string) : option (string * string) :=
  match s with
  | EmptyString => None
  | String c s' =>
      if Ascii.eqb c stop then Some (EmptyString, s')
      else option_map (fun p => (String c (fst p), snd p)) (read_until stop s')
  end.

(** A match of [\[[^\]]*\]\(([^)]+)\)] at the start of [s]:
    the matched text, group 1 and the remaining input. *)
Definition match_link (s : string) : option (string * string * string) :=
  match s with
  | String b s1 =>
      if Ascii.eqb b "[" then
        match read_until "]" s1 with
        | Some (alt, String o s2) =>
            if Ascii.eqb o "(" then
              match read_until ")" s2 with
              | Some (target, rest) =>
                  if nonempty target
                  then Some ("[" +:+ alt +:+ "](" +:+ target +:+ ")", target, rest)
                  else None
              | None => None
              end
            else None
        | _ => None
        end
      else None
  | EmptyString => None
  end.

(** The scan of [MEDIA_RE.sub] ([!?] first tried with the [!]); [repl]
    drops a link whose target [(base_dir / rel).resolve()] exists (a file
    of the snippet directory here) and records it, and keeps any other
    link as it is.  [fuel] is the input length: each step consumes input. *)
Fixpoint parse_md_go (st : store) (fuel : nat) (s : string) : string * list string :=
  match fuel with
  | O => (s, [])
  | S fuel' =>
      match s with
      | EmptyString => (EmptyString, [])
      | String c s' =>
          let attempt :=
            if Ascii.eqb c "!"
            then option_map (fun '(m, g, r) => (String "!" m, g, r)) (match_link s')
            else match_link s in
          match attempt with
          | Some (m, g, rest) =>
              let rel := strip g in
              let '(out, ps) := parse_md_go st fuel' rest in
              if file_exists st rel then (out, rel :: ps) else (m +:+ out, ps)
          | None =>
              let '(out, ps) := parse_md_go st fuel' s' in (String c out, ps)
          end
      end
  end.

Definition parse_markdown_media (st : store) (md_text : string) : string * list string :=
  parse_md_go st (S (String.length md_text)) md_text.

(* ------------------------------------------------------------------ *)
(** ** Replying with a local snippet *)

(** The HTML branch: [files = sorted(SNIPS.glob(f"{tag}_*"))], a single
    voice note, else one media group with the HTML on the first item,
    else the HTML as a message.  The three reply targets are those the
    source passes at lines 168/208/216 (hashtags) and 321/361/368
    (trigger words). *)
Definition html_media_group (html : string) (files : list string) : list media_item :=
  imap (fun idx p =>
          let first := (idx =? 0)%nat in
          mk_item (media_kind_of_ext (file_ext p)) p
                  (if first then Some html else None)
                  (if first then Some HTML else None))
       files.

Definition html_snip_sends (st : store) (chat_id : Z) (tag html : string)
    (voice_to group_to text_to : Z) : list send :=
  let files := glob_media st tag in
  let bundle :=
    match html_media_group html files with
    | [] => [SendMessage chat_id html (Some HTML) (Some text_to)]
    | media_group => [SendMediaGroup chat_id media_group group_to]
    end in
  match files with
  | [p] =>
      if is_voice_ext (file_ext p)
      then [SendVoice chat_id p (Some html)
              (if nonempty html then Some HTML else None) voice_to]
      else bundle
  | _ => bundle
  end.

(** The markdown branch.  Reply targets: text-only message, voice note,
    long caption after a voice note, long caption before a media group,
    media group (lines 231/248/255/295/301 and 382/397/403/442/448). *)
Definition md_media_group (caption caption_escaped : string) (long_caption : bool)
    (existing_media : list string) : list media_item :=
  imap (fun idx p =>
          let first_caption := (idx =? 0)%nat && nonempty caption && negb long_caption in
          mk_item (media_kind_of_ext (file_ext p)) p
                  (if first_caption then Some caption_escaped else None)
                  (Some MarkdownV2))
       existing_media.

Definition md_snip_sends (st : store) (chat_id : Z) (md : string)
    (text_to voice_to voice_long_to long_to group_to : Z) : list send :=
  let '(plain_text, media_paths) := parse_markdown_media st md in
  let existing_media := List.filter (file_exists st) media_paths in
  match existing_media with
  | [] =>
      if nonempty plain_text
      then [SendMessage chat_id (md_escape plain_text) (Some MarkdownV2) (Some text_to)]
      else []
  | _ =>
      let caption := plain_text in
      let long_caption := nonempty caption && (1024 <? String.length caption)%nat in
      let caption_escaped := if nonempty caption then md_escape caption else "" in
      let voice :=
        match existing_media with
        | [p] => is_voice_ext (file_ext p)
        | _ => false
        end in
      if voice then
        [SendVoice chat_id (hd "" existing_media)
           (if long_caption then None else Some caption_escaped)
           (if nonempty caption && negb long_caption then Some MarkdownV2 else None)
           voice_to]
        ++ (if long_caption
            then [SendMessage chat_id caption_escaped None (Some voice_long_to)] else [])
      else
        let media_group := md_media_group caption caption_escaped long_caption existing_media in
        (if long_caption then [SendMessage chat_id caption_escaped None (Some long_to)] else [])
        ++ match media_group with
           | [] => []
           | _ => [SendMediaGroup chat_id media_group group_to]
           end
  end.

(* ------------------------------------------------------------------ *)
(** ** [handle_message] *)

(** The body of [for tag in hashtags] (lines 143-302). *)
Definition tag_sends (st : store) (meta : gmap string fref) (chat_id reply_target spicy_target : Z)
    (tag : string) : list send :=
  match meta !! tag with
  | Some ref => [CopyMessage chat_id (ref_chat_id ref) (ref_message_id ref) reply_target]
  | None =>
      match load_snip_md st tag with
      | None =>
          match load_snip_html st tag with
          | None => []
          | Some html => html_snip_sends st chat_id tag html spicy_target reply_target reply_target
          end
      | Some md =>
          md_snip_sends st chat_id md reply_target reply_target reply_target reply_target reply_target
      end
  end.

(** The body of [for trig in spicy_matches] (lines 305-449). *)
Definition trigger_sends (st : store) (chat_id reply_target spicy_target : Z)
    (trig : string) : list send :=
  let tag := "spicy-" +:+ trig in
  match load_snip_md st tag with
  | None =>
      match load_snip_html st tag with
      | None => []
      | Some html => html_snip_sends st chat_id tag html spicy_target spicy_target spicy_target
      end
  | Some md =>
      md_snip_sends st chat_id md spicy_target spicy_target spicy_target reply_target spicy_target
  end.

(** An inbound message: its id, its text and the id of the message it
    replies to, if any. *)
Record message := mk_message {
  message_id : Z;
  text : option string;
  reply_to_message : option Z
}.

(** [reply_target] (lines 125-128): the parent if [m] is a reply. *)
Definition explicit_reply_target (m : message) : Z :=
  match reply_to_message m with Some p => p | None => message_id m end.

Definition handle_message (st : store) (chat_id : Z) (m : message) : list send :=
  match text m with
  | None | Some EmptyString => []
  | Some txt =>
      let reply_target := explicit_reply_target m in
      let meta := load_meta st in
      let hashtags := extract_hashtags txt in
      let spicy_words := load_spicy_triggers st in
      let spicy_matches := extract_spicy_triggers txt spicy_words in
      let spicy_target := message_id m in
      match hashtags, spicy_matches with
      | [], [] => []
      | _, _ =>
          flat_map (tag_sends st meta chat_id reply_target spicy_target) hashtags
          ++ flat_map (trigger_sends st chat_id reply_target spicy_target) spicy_matches
      end
  end.

(** The end-to-end scenarios of the spec. *)
Definition st_welcome : store :=
  mk_store (<["welcome.html" := "Hello <b>all</b>"]> ∅) None.

Example handle_message_welcome :
  handle_message st_welcome 1 (mk_message 10 (Some "check #welcome") None)
  = [SendMessage 1 "Hello <b>all</b>" (Some HTML) (Some 10%Z)].
Proof. vm_compute. reflexivity. Qed.

Definition st_cat : store :=
  mk_store (<["cat.html" := "two cats"]> (<["cat_1.png" := ""]> (<["cat_0.jpg" := ""]> ∅))) None.

Example handle_message_cat :
  handle_message st_cat 1 (mk_message 10 (Some "look #cat") (Some 5%Z))
  = [SendMediaGroup 1 [mk_item Photo "cat_0.jpg" (Some "two cats") (Some HTML);
                       mk_item Photo "cat_1.png" None None] 5].
Proof. vm_compute. reflexivity. Qed.

Definition st_ouch : store :=
  mk_store (<["spicy-ouch.html" := "ow"]> ∅) None.

Example handle_message_ouch :
  handle_message st_ouch 1 (mk_message 10 (Some "Ouch, that hurt") (Some 5%Z))
  = [SendMessage 1 "ow" (Some HTML) (Some 10%Z)].
Proof. vm_compute. reflexivity. Qed.

Definition st_md : store :=
  mk_store (<["m.md" := "pic ![x](m_0.jpg) *b* end."]> (<["m_0.jpg" := ""]> ∅)) None.

Example handle_message_md :
  handle_message st_md 1 (mk_message 10 (Some "#m") None)
  = [SendMediaGroup 1 [mk_item Photo "m_0.jpg" (Some "pic  *b* end\.") (Some MarkdownV2)] 10].
Proof. vm_compute. reflexivity. Qed.

(* ------------------------------------------------------------------ *)
(** ** The save commands *)

(** A Telegram file attachment.  [att_file_name] is [None] when the class
    has no [file_name] attribute (PhotoSize, Voice, VideoNote) and
    [Some v] with its (optional) value otherwise. *)
Record attachment := mk_att {
  att_file_id : string;
  att_file_unique_id : string;
  att_file_size : option Z;
  att_file_name : option (option string)
}.

(** The message the command replies to ([m.reply_to_message]). *)
Record source_message := mk_src {
  src_chat_id : Z;
  src_message_id : Z;
  src_text_html : option string;
  src_caption_html : option string;
  src_photo : list attachment;
  src_document : option attachment;
  src_video : option attachment;
  src_audio : option attachment;
  src_voice : option attachment;
  src_animation : option attachment;
  src_video_note : option attachment
}.

(** A command update: caller id and display name, chat, the message it
    replies to, and [context.args]. *)
Record command := mk_cmd {
  cmd_user_id : Z;
  cmd_user_name : string;
  cmd_chat_id : Z;
  cmd_reply : option source_message;
  cmd_args : list string
}.

(** What the transport does for one attachment: [get_file] raises, or it
    returns a file with [file_path], whose [download_to_drive] yields the
    content or raises (caught by the loop). *)
Inductive fetch_result :=
  | FetchRaises
  | Fetched (file_path : option string) (download : option string).

Inductive effect :=
  | ESend (s : send)
  | EGetFile (file_id : string)
  | EDownload (file_id path : string)
  | ERecordChange (paths : list string) (msg : string).

(** A handler either returns or an exception escapes it (then reported
    by [error_handler]); both carry the store and the effects so far. *)
Inductive outcome :=
  | Done (st : store) (effs : list effect)
  | Raised (st : store) (effs : list effect).

Definition MAX_MEDIA_SAVE_SIZE : Z := 10 * 1024 * 1024.

Definition META_FILE : string := "meta.yaml".

Definition is_admin (admins : list Z) (u : Z) : bool := existsb (Z.eqb u) admins.

Definition opt_list {A} (o : option A) : list A :=
  match o with Some x => [x] | None => [] end.

(** [parts]: the HTML text and caption of the source message. *)
Definition body_parts (reply : source_message) : list string :=
  List.filter nonempty (opt_list (src_text_html reply) ++ opt_list (src_caption_html reply)).

(** [media_entries]: the largest photo size, then the other media fields. *)
Definition media_entries (reply : source_message) : list attachment :=
  opt_list (last (src_photo reply))
  ++ flat_map opt_list [src_document reply; src_video reply; src_audio reply;
                        src_voice reply; src_animation reply; src_video_note reply].

Definition total_media_size (ents : list attachment) : Z :=
  fold_right (fun ent acc => default 0 (att_file_size ent) + acc)%Z 0%Z ents.

(** [Path(p).name]: the part after the last [/]. *)
Definition path_name (p : string) : string :=
  let r := String.rev p in
  match str_index "/" r with
  | Some j => String.rev (str_take j r)
  | None => p
  end.

(** [f1.file_path or ent.file_unique_id]. *)
Definition fallback_name (ent : attachment) (file_path : option string) : string :=
  match file_path with
  | Some fp => if nonempty fp then fp else att_file_unique_id ent
  | None => att_file_unique_id ent
  end.

(** [fname] in [handle_save]: [ent.file_name] if truthy. *)
Definition save_fname (ent : attachment) (file_path : option string) : option string :=
  match att_file_name ent with
  | Some (Some n) => if nonempty n then Some n else Some (path_name (fallback_name ent file_path))
  | _ => Some (path_name (fallback_name ent file_path))
  end.

(** [fname] in [handle_savespicy]: [getattr(ent, 'file_name', default)];
    a present [file_name] of [None] makes [Path(fname)] raise ([None]). *)
Definition spicy_fname (ent : attachment) (file_path : option string) : option string :=
  match att_file_name ent with
  | None => Some (path_name (fallback_name ent file_path))
  | Some (Some n) => Some n
  | Some None => None
  end.

Inductive loop_result :=
  | LoopOk (files : gmap string string) (saved : list string) (effs : list effect)
  | LoopRaised (files : gmap string string) (effs : list effect).

(** The download loop [for idx, ent in enumerate(media_entries)]. *)
Fixpoint download_loop (fetch : attachment -> fetch_result)
    (fname_of : attachment -> option string -> option string)
    (key : string) (idx : nat) (ents : list attachment)
    (files : gmap string string) (saved : list string) (effs : list effect) : loop_result :=
  match ents with
  | [] => LoopOk files saved effs
  | ent :: ents' =>
      let effs1 := (effs ++ [EGetFile (att_file_id ent)])%list in
      match fetch ent with
      | FetchRaises => LoopRaised files effs1
      | Fetched file_path dl =>
          match fname_of ent file_path with
          | None => LoopRaised files effs1
          | Some fname =>
              let save_path := key +:+ "_" +:+ string_of_nat idx +:+ path_suffix (path_name fname) in
              let effs2 := (effs1 ++ [EDownload (att_file_id ent) save_path])%list in
              match dl with
              | Some data =>
                  download_loop fetch fname_of key (S idx) ents'
                    (<[save_path := data]> files) (saved ++ [save_path])%list effs2
              | None =>
                  download_loop fetch fname_of key (S idx) ents' files saved effs2
              end
          end
      end
  end.

(** [f.write('\n'.join(lines).strip() + '\n')]. *)
Definition html_body (parts : list string) : string :=
  let lines := match parts with [] => [] | _ => [join_nl parts] end in
  strip (join_nl lines) +:+ String "010" EmptyString.

(** Removing the forward-only entry (lines 527-536). *)
Definition drop_forward_ref (m : option (gmap string fref)) (hashtag : string) : option (gmap string fref) :=
  match m with
  | Some mm => match mm !! hashtag with Some _ => Some (delete hashtag mm) | None => Some mm end
  | None => None
  end.

Definition reply_text (c : Z) (t : string) : effect := ESend (SendMessage c t None None).

Definition permission_denied (cmd : command) : effect :=
  reply_text (cmd_chat_id cmd)
    ("ERROR: Permission denied (" +:+ string_of_Z (cmd_user_id cmd) +:+ ")").

(** [handle_save] ([/saveng], [/save]). *)
Definition handle_save (admins : list Z) (fetch : attachment -> fetch_result)
    (st : store) (cmd : command) : outcome :=
  match cmd_reply cmd with
  | None => Done st []
  | Some reply =>
      if negb (is_admin admins (cmd_user_id cmd)) then Done st [permission_denied cmd]
      else
      match cmd_args cmd with
      | [] => Done st [reply_text (cmd_chat_id cmd) "Usage: /saveng nameofhashtag (alias: /save)"]
      | arg :: _ =>
          let hashtag := lower arg in
          let parts := body_parts reply in
          let ents := media_entries reply in
          if (MAX_MEDIA_SAVE_SIZE <? total_media_size ents)%Z then
            let meta' := <[hashtag := mk_fref (src_chat_id reply) (src_message_id reply)]> (load_meta st) in
            Done (mk_store (snips st) (Some meta'))
                 [reply_text (cmd_chat_id cmd)
                    ("Saved snippet '" +:+ hashtag +:+ "' (forward-only; media too large)")]
          else
            let html_path := hashtag +:+ ".html" in
            match download_loop fetch save_fname hashtag 0 ents (snips st) [html_path] [] with
            | LoopRaised files effs => Raised (mk_store files (meta st)) effs
            | LoopOk files saved_files effs =>
                let files' := <[html_path := html_body parts]> files in
                let meta' := drop_forward_ref (meta st) hashtag in
                Done (mk_store files' meta')
                     (effs ++ [ERecordChange (saved_files ++ [META_FILE])
                                 ("#" +:+ hashtag +:+ " added by @" +:+ cmd_user_name cmd);
                               reply_text (cmd_chat_id cmd)
                                 ("Saved snip '" +:+ hashtag +:+ "' (HTML mode)")])%list
            end
      end
  end.

(** [handle_savespicy] ([/savespicy]): no size check, no [meta.yaml]. *)
Definition handle_savespicy (admins : list Z) (fetch : attachment -> fetch_result)
    (st : store) (cmd : command) : outcome :=
  match cmd_reply cmd with
  | None => Done st []
  | Some reply =>
      if negb (is_admin admins (cmd_user_id cmd)) then Done st [permission_denied cmd]
      else
      match cmd_args cmd with
      | [] => Done st [reply_text (cmd_chat_id cmd) "Usage: /savespicy triggerword"]
      | arg :: _ =>
          let trig := lower arg in
          let fullname := "spicy-" +:+ trig in
          let html_path := fullname +:+ ".html" in
          let parts := body_parts reply in
          let ents := media_entries reply in
          match download_loop fetch spicy_fname fullname 0 ents (snips st) [html_path] [] with
          | LoopRaised files effs => Raised (mk_store files (meta st)) effs
          | LoopOk files saved_files effs =>
              let files' := <[html_path := strip (join_nl parts) +:+ String "010" EmptyString]> files in
              Done (mk_store files' (meta st))
                   (effs ++ [ERecordChange saved_files
                               ("#spicy-" +:+ trig +:+ " added by @" +:+ cmd_user_name cmd);
                             reply_text (cmd_chat_id cmd)
                               ("Saved spicy snip '" +:+ trig +:+ "' (HTML mode)")])%list
          end
      end
  end.

Definition photo_att (id : string) (size : Z) : attachment :=
  mk_att id (id +:+ "u") (Some size) None.

Definition src_with (atts : list attachment) (doc : option attachment) : source_message :=
  mk_src 77 500 None (Some "look") atts doc None None None None None.

Definition fetch_ok (ent : attachment) : fetch_result :=
  Fetched (Some ("photos/" +:+ att_file_id ent +:+ ".jpg")) (Some "data").

Example handle_save_local_ex :
  handle_save [1%Z] fetch_ok (mk_store ∅ (Some {[ "k" := mk_fref 3 4 ]}))
    (mk_cmd 1 "ann" 9 (Some (src_with [photo_att "a" 10; photo_att "b" 20] None)) ["K"])
  = Done (mk_store (<["k.html" := "look" +:+ String "010" ""]> (<["k_0.jpg" := "data"]> ∅)) (Some ∅))
      [EGetFile "b"; EDownload "b" "k_0.jpg";
       ERecordChange ["k.html"; "k_0.jpg"; "meta.yaml"] "#k added by @ann";
       reply_text 9 "Saved snip 'k' (HTML mode)"].
Proof. vm_compute. reflexivity. Qed.

(* ------------------------------------------------------------------ *)
(** ** [handle_listng] ([/listng]) *)

(** [s.split(c, 1)[0]]. *)
Fixpoint before_first (c : ascii) (s : string) : string :=
  match s with
  | EmptyString => EmptyString
  | String x s' => if Ascii.eqb x c then EmptyString else String x (before_first c s')
  end.

(** [{p.stem for p in SNIPS.glob("*.md")}] and the same for ["*.html"]. *)
Definition md_tags (st : store) : list string :=
  map path_stem (List.filter (ends_with ".md") (dir_names st)).

Definition html_tags (st : store) : list string :=
  map path_stem (List.filter (ends_with ".html") (dir_names st)).

(** The body of the [SNIPS.iterdir()] loop for one (regular) file. *)
Definition media_tag (p : string) : option string :=
  if negb (ext_in (file_ext p) [".md"; ".html"]) && str_elem "_" (path_stem p)
  then Some (before_first "_" (path_stem p)) else None.

Definition media_tags (st : store) : list string := omap media_tag (dir_names st).

(** [sorted(md_tags | html_tags | media_tags)]. *)
Definition list_tags (st : store) : list string :=
  merge_sort String.le
    (elements (list_to_set (md_tags st ++ html_tags st ++ media_tags st) : gset string)).

Definition listng_part (tag : string) : string := "#" +:+ tag +:+ String "010" EmptyString.

(** The chunking loop: [chunk] is the chunk being filled. *)
Fixpoint listng_chunks (chunk : string) (tags : list string) : list string :=
  match tags with
  | [] => if nonempty chunk then [chunk] else []
  | tag :: tags' =>
      let part := listng_part tag in
      if (4000 <? String.length chunk + String.length part)%nat
      then chunk :: listng_chunks part tags'
      else listng_chunks (chunk +:+ part) tags'
  end.

Definition handle_listng (st : store) (chat_id : Z) : list send :=
  match list_tags st with
  | [] => [SendMessage chat_id "No snippets available." None None]
  | tags => map (fun chunk => SendMessage chat_id chunk None None) (listng_chunks "" tags)
  end.

Example handle_listng_ex :
  handle_listng (mk_store (<["b.md" := ""]> (<["a_b_0.jpg" := ""]> (<["a_b.html" := ""]>
                   (<["meta.yaml" := ""]> (<["c.html" := ""]> ∅))))) None) 1
  = [SendMessage 1 ("#a" +:+ String "010" "#a_b" +:+ String "010" "#b" +:+ String "010"
                    "#c" +:+ String "010" "") None None].
Proof. vm_compute. reflexivity. Qed.

(** The text, chat, reply target and files of an outbound request. *)
Definition send_chat (s : send) : Z :=
  match s with
  | CopyMessage c _ _ _ | SendVoice c _ _ _ _ | SendMediaGroup c _ _ | SendMessage c _ _ _ => c
  end.

Definition send_reply_to (s : send) : option Z :=
  match s with
  | CopyMessage _ _ _ r | SendVoice _ _ _ _ r | SendMediaGroup _ _ r => Some r
  | SendMessage _ _ _ r => r
  end.

Definition send_files (s : send) : list string :=
  match s with
  | SendVoice _ v _ _ _ => [v]
  | SendMediaGroup _ items _ => map mi_file items
  | _ => []
  end.

Definition send_text (s : send) : option string :=
  match s with SendMessage _ t _ _ => Some t | _ => None end.

(** The store a save command leaves behind. *)
Definition outcome_store (o : outcome) : store :=
  match o with Done st _ | Raised st _ => st end.

Definition outcome_effects (o : outcome) : list effect :=
  match o with Done _ effs | Raised _ effs => effs end.

(** Every character of [s] satisfies [f]. *)
Fixpoint str_forall (f : ascii -> bool) (s : string) : bool :=
  match s with
  | EmptyString => true
  | String c s' => f c && str_forall f s'
  end.

(** A 7-bit ASCII character: on these, Python's [\w] is [[A-Za-z0-9_]] and
    [str.lower] maps only [A-Z], as [is_word_char] and [lower] do. *)
Definition is_ascii7 (c : ascii) : bool := (Ascii.nat_of_ascii c <? 128)%nat.

(* ================================================================== *)
(** * Properties *)

(* ------------------------------------------------------------------ *)
(** ** Escaping *)

Lemma escape_by_ext (f g : ascii -> bool) (s : string) :
  (forall c, f c = g c) -> escape_by f s = escape_by g s.
Proof. intros Hfg. induction s as [|c s IH]; simpl; [done|]. by rewrite Hfg, IH. Qed.

(** An escaped text never starts with a character that [esc] escapes,
    other than the backslash it inserts. *)
Lemma escape_by_head (esc : ascii -> bool) (ch d : ascii) (s rest : string) :
  esc ch = true -> ch <> "\"%char -> escape_by esc s = String d rest -> d <> ch.
Proof.
  intros Hch Hbs Hs. destruct s as [|c s]; simpl in Hs; [done|].
  destruct (esc c) eqn:Hc; injection Hs as <- _; [done|].
  intros ->. congruence.
Qed.

Lemma unescape_one_cons (ch c : ascii) (t : string) :
  Ascii.eqb c "\" = false -> unescape_one ch (String c t) = String c (unescape_one ch t).
Proof. intros Hc. simpl. by rewrite Hc. Qed.

Lemma unescape_one_bs (ch c : ascii) (t : string) :
  unescape_one ch (String "\" (String c t))
  = if Ascii.eqb c ch then String c (unescape_one ch t)
    else String "\" (unescape_one ch (String c t)).
Proof. reflexivity. Qed.

(** The character after a backslash that heads an escaped text is not
    taken for an escape of [ch]. *)
Lemma unescape_one_head (esc : ascii -> bool) (ch c : ascii) (s : string) :
  esc ch = true -> ch <> "\"%char -> Ascii.eqb c ch = false ->
  unescape_one ch (String c (escape_by esc s)) = String c (unescape_one ch (escape_by esc s)).
Proof.
  intros Hch Hne Hcc. destruct (Ascii.eqb c "\") eqn:Hcb; [|by apply unescape_one_cons].
  apply Ascii.eqb_eq in Hcb as ->.
  destruct (escape_by esc s) as [|d rest] eqn:Hs; [done|].
  cbn [unescape_one]. rewrite Ascii.eqb_refl.
  destruct (Ascii.eqb d ch) eqn:Hd; [|done].
  apply Ascii.eqb_eq in Hd. exfalso. by eapply escape_by_head.
Qed.

(** One pass of [replace('\\' + ch, ch)] over an escaped text undoes the
    escaping of [ch] and of nothing else. *)
Lemma unescape_one_escape (esc : ascii -> bool) (ch : ascii) (s : string) :
  esc "\"%char = true -> esc ch = true -> ch <> "\"%char ->
  unescape_one ch (escape_by esc s) = escape_by (fun c => esc c && negb (Ascii.eqb c ch)) s.
Proof.
  intros Hbs Hch Hne. induction s as [|c s IH]; [done|]. simpl escape_by.
  destruct (esc c) eqn:Hc; simpl andb.
  - rewrite unescape_one_bs.
    destruct (Ascii.eqb c ch) eqn:Hcc; simpl negb.
    + by rewrite IH.
    + by rewrite unescape_one_head, IH.
  - assert (Ascii.eqb c "\" = false) as Hcb.
    { apply Ascii.eqb_neq. intros ->. congruence. }
    by rewrite unescape_one_cons, IH.
Qed.

(** [escape_markdown] then the [replace] loop is one escaping pass by the
    MarkdownV2 set less [* _ [ ] ( )]. *)
Lemma md_escape_spec (s : string) :
  md_escape s
  = escape_by (fun c => str_elem c md_v2_escape_chars && negb (str_elem c kept_markup)) s.
Proof.
  unfold md_escape, escape_markdown_v2, kept_markup. cbn [unescape_each].
  repeat (rewrite unescape_one_escape; [|reflexivity|reflexivity|discriminate]).
  apply escape_by_ext. intros c.
  generalize (str_elem c md_v2_escape_chars) as e. intros e.
  unfold str_elem. cbn [list_ascii_of_string existsb].
  destruct e, (Ascii.eqb c "*"), (Ascii.eqb c "_"), (Ascii.eqb c "["),
    (Ascii.eqb c "]"), (Ascii.eqb c "("), (Ascii.eqb c ")"); reflexivity.
Qed.

(** C6: a markdown body is sent, as text or as caption, through
    [md_escape]: every character of the MarkdownV2 escape set is escaped
    except [* _ [ ] ( )], which are delivered as they are; so [*bold*]
    keeps its asterisks while a [.] is escaped. *)
Theorem md_escape_all_but_markup : forall s : string,
  md_escape s
  = escape_by (fun c => str_elem c md_v2_escape_chars && negb (str_elem c kept_markup)) s
  /\ md_escape "*bold*." = "*bold*\.".
Proof. intros s. split; [apply md_escape_spec | reflexivity]. Qed.

(* ------------------------------------------------------------------ *)
(** ** Resolution of keys *)

Definition is_copy (x : send) : bool :=
  match x with CopyMessage _ _ _ _ => true | _ => false end.

Lemma html_snip_sends_no_copy st chat tag html v g t :
  existsb is_copy (html_snip_sends st chat tag html v g t) = false.
Proof.
  unfold html_snip_sends.
  destruct (html_media_group html (glob_media st tag)); repeat case_match; done.
Qed.

Lemma md_snip_sends_no_copy st chat md a b c d e :
  existsb is_copy (md_snip_sends st chat md a b c d e) = false.
Proof.
  unfold md_snip_sends. destruct (parse_markdown_media st md) as [pt mp].
  repeat case_match; simpl; rewrite ?existsb_app; repeat case_match; done.
Qed.

Lemma trigger_sends_no_copy st chat rt stt trig :
  existsb is_copy (trigger_sends st chat rt stt trig) = false.
Proof.
  unfold trigger_sends. repeat case_match;
    auto using html_snip_sends_no_copy, md_snip_sends_no_copy.
Qed.

Lemma extract_hashtags_empty : extract_hashtags "" = [].
Proof. reflexivity. Qed.

(** A key found among the hashtags of a message is resolved by [tag_sends]
    with the message's mapping and targets. *)
Lemma handle_message_hashtag_in st chat m txt tag x :
  text m = Some txt -> In tag (extract_hashtags txt) ->
  In x (tag_sends st (load_meta st) chat (explicit_reply_target m) (message_id m) tag) ->
  In x (handle_message st chat m).
Proof.
  intros Ht Hin Hx. unfold handle_message. rewrite Ht.
  destruct txt as [|c txt']; [rewrite extract_hashtags_empty in Hin; done|].
  cbv zeta.
  destruct (extract_hashtags (String c txt')) as [|h hs] eqn:Hh; [done|].
  apply in_or_app. left. apply in_flat_map. eauto.
Qed.

Lemma parse_md_go_snips (st1 st2 : store) (fuel : nat) (s : string) :
  snips st1 = snips st2 -> parse_md_go st1 fuel s = parse_md_go st2 fuel s.
Proof.
  intros H. revert s. induction fuel as [|fuel IH]; intros s; [done|].
  destruct s as [|c s]; [done|]. simpl. unfold file_exists. rewrite H.
  match goal with
  | |- match ?a with _ => _ end = _ => destruct a as [[[m g] rest]|]
  end; rewrite IH; reflexivity.
Qed.

Lemma html_snip_sends_snips (st1 st2 : store) chat tag html v g t :
  snips st1 = snips st2 -> html_snip_sends st1 chat tag html v g t = html_snip_sends st2 chat tag html v g t.
Proof. intros H. unfold html_snip_sends, glob_media, dir_names. by rewrite H. Qed.

Lemma md_snip_sends_snips (st1 st2 : store) chat md a b c d e :
  snips st1 = snips st2 -> md_snip_sends st1 chat md a b c d e = md_snip_sends st2 chat md a b c d e.
Proof.
  intros H. unfold md_snip_sends, parse_markdown_media.
  rewrite (parse_md_go_snips st1 st2) by exact H. unfold file_exists. by rewrite H.
Qed.

(** Trigger-word resolution reads the snippet directory only. *)
Lemma trigger_sends_snips (st1 st2 : store) (chat rt stt : Z) (trig : string) :
  snips st1 = snips st2 -> trigger_sends st1 chat rt stt trig = trigger_sends st2 chat rt stt trig.
Proof.
  intros H. unfold trigger_sends, load_snip_md, load_snip_html. rewrite H.
  repeat case_match; auto using html_snip_sends_snips, md_snip_sends_snips.
Qed.

(** When the message names a hashtag or a trigger word, [handle_message]
    answers the hashtags first, then the trigger words. *)
Lemma handle_message_sends (st : store) (chat : Z) (m : message) (txt : string) :
  text m = Some txt -> nonempty txt = true ->
  extract_hashtags txt <> [] \/ extract_spicy_triggers txt (load_spicy_triggers st) <> [] ->
  handle_message st chat m
  = (flat_map (tag_sends st (load_meta st) chat (explicit_reply_target m) (message_id m)) (extract_hashtags txt)
     ++ flat_map (trigger_sends st chat (explicit_reply_target m) (message_id m))
          (extract_spicy_triggers txt (load_spicy_triggers st)))%list.
Proof.
  intros Ht Hne Hor. unfold handle_message. rewrite Ht.
  destruct txt as [|c txt']; [done|]. cbv zeta.
  destruct (extract_hashtags (String c txt')), (extract_spicy_triggers (String c txt') (load_spicy_triggers st));
    [by destruct Hor|reflexivity..].
Qed.

Lemma extract_spicy_triggers_empty (ts : list string) : extract_spicy_triggers "" ts = [].
Proof. induction ts as [|t ts IH]; [done|]. exact IH. Qed.

(** A word found among the trigger words of a message is resolved by
    [trigger_sends] with the message's own id as target. *)
Lemma handle_message_trigger_in (st : store) (chat : Z) (m : message) (txt w : string) :
  text m = Some txt -> In w (extract_spicy_triggers txt (load_spicy_triggers st)) ->
  exists pre post, handle_message st chat m
    = (pre ++ trigger_sends st chat (explicit_reply_target m) (message_id m) w ++ post)%list.
Proof.
  intros Ht Hin.
  assert (Hne : nonempty txt = true)
    by (destruct txt; [by rewrite extract_spicy_triggers_empty in Hin|reflexivity]).
  rewrite (handle_message_sends st chat m txt Ht Hne)
    by (right; intros Hnil; rewrite Hnil in Hin; destruct Hin).
  apply in_split in Hin as (l1 & l2 & Hsplit). rewrite Hsplit, flat_map_app. cbn [flat_map].
  rewrite app_assoc. eexists _, _. reflexivity.
Qed.

(** C1 (as corrected): a key of the forward-reference mapping resolved as
    an explicit hashtag yields one copy of the stored remote message, and
    whatever local artifacts the store holds are not consulted.  A key
    [spicy-w] reached through the trigger word [w] is resolved without
    the mapping: whatever the mapping holds, the local HTML artifact of
    [spicy-w] is sent under the message. *)
Theorem hashtag_forward_ref_wins :
  (forall (st : store) (files' : gmap string string) (chat reply_target spicy_target : Z)
          (tag : string) (ref : fref),
     load_meta st !! tag = Some ref ->
     tag_sends st (load_meta st) chat reply_target spicy_target tag
     = [CopyMessage chat (ref_chat_id ref) (ref_message_id ref) reply_target]
     /\ tag_sends (mk_store files' (meta st)) (load_meta st) chat reply_target spicy_target tag
        = tag_sends st (load_meta st) chat reply_target spicy_target tag)
  /\ (forall (st : store) (chat : Z) (m : message) (txt w html : string),
        text m = Some txt -> In w (extract_spicy_triggers txt (load_spicy_triggers st)) ->
        load_snip_md st ("spicy-" +:+ w) = None -> load_snip_html st ("spicy-" +:+ w) = Some html ->
        exists pre post, handle_message st chat m
          = (pre ++ html_snip_sends st chat ("spicy-" +:+ w) html (message_id m) (message_id m) (message_id m)
             ++ post)%list)
  /\ (forall (st : store) (meta' : option (gmap string fref)) (chat rt stt : Z) (w : string),
        trigger_sends (mk_store (snips st) meta') chat rt stt w = trigger_sends st chat rt stt w).
Proof.
  split; [|split].
  - intros st files' chat rt stt tag ref Hm. unfold tag_sends. by rewrite Hm.
  - intros st chat m txt w html Ht Hin Hmd Hhtml.
    destruct (handle_message_trigger_in st chat m txt w Ht Hin) as (pre & post & ->).
    exists pre, post. unfold trigger_sends. cbv zeta. by rewrite Hmd, Hhtml.
  - intros st meta' chat rt stt w. by apply trigger_sends_snips.
Qed.

Definition st_both : store :=
  mk_store (<["spicy-ouch.html" := "ow"]> ∅) (Some {[ "spicy-ouch" := mk_fref 7 8 ]}).

Lemma hashtag_forward_ref_wins_witness :
  load_meta st_both !! "spicy-ouch" = Some (mk_fref 7 8)
  /\ tag_sends st_both (load_meta st_both) 1 10 10 "spicy-ouch" = [CopyMessage 1 7 8 10]
  /\ exists pre post, handle_message st_both 1 (mk_message 10 (Some "ouch") None)
       = (pre ++ html_snip_sends st_both 1 ("spicy-" +:+ "ouch") "ow" 10 10 10 ++ post)%list.
Proof.
  destruct hashtag_forward_ref_wins as (H1 & H2 & _).
  split; [reflexivity|split].
  - exact (proj1 (H1 st_both ∅ 1%Z 10%Z 10%Z "spicy-ouch" (mk_fref 7 8) eq_refl)).
  - apply (H2 st_both 1%Z (mk_message 10 (Some "ouch") None) "ouch" "ouch" "ow");
      vm_compute; first [reflexivity|left; reflexivity].
Defined.

(** C1 fails as stated: [spicy-ouch] has a forward reference, yet the
    message "ouch" resolves it as a trigger word and the local HTML body
    is read and sent, with no copy of the remote message. *)
Lemma trigger_bypasses_forward_ref :
  load_meta st_both !! "spicy-ouch" = Some (mk_fref 7 8)
  /\ handle_message st_both 1 (mk_message 10 (Some "ouch") None)
     = [SendMessage 1 "ow" (Some HTML) (Some 10%Z)].
Proof. split; vm_compute; reflexivity. Qed.

(** C9: a text with no hashtag and no trigger word gets no reply, and a
    key with neither a forward reference nor a text artifact is skipped
    with no output, whether it comes from a hashtag or a trigger word. *)
Theorem no_reference_no_reply : forall (st : store) (chat : Z),
  (forall (m : message) (txt : string), text m = Some txt ->
     extract_hashtags txt = [] -> extract_spicy_triggers txt (load_spicy_triggers st) = [] ->
     handle_message st chat m = [])
  /\ (forall (meta : gmap string fref) (rt stt : Z) (tag : string),
        meta !! tag = None -> load_snip_md st tag = None -> load_snip_html st tag = None ->
        tag_sends st meta chat rt stt tag = [])
  /\ (forall (rt stt : Z) (trig : string),
        load_snip_md st ("spicy-" +:+ trig) = None -> load_snip_html st ("spicy-" +:+ trig) = None ->
        trigger_sends st chat rt stt trig = []).
Proof.
  intros st chat. split; [|split].
  - intros m txt Ht Hh Hs. unfold handle_message. rewrite Ht.
    destruct txt; [done|]. cbv zeta. by rewrite Hh, Hs.
  - intros meta rt stt tag Hm Hmd Hhtml. unfold tag_sends. by rewrite Hm, Hmd, Hhtml.
  - intros rt stt trig Hmd Hhtml. unfold trigger_sends. by rewrite Hmd, Hhtml.
Qed.

Lemma no_reference_no_reply_witness :
  handle_message st_welcome 1 (mk_message 10 (Some "hello there") None) = []
  /\ tag_sends st_welcome ∅ 1 10 10 "nokey" = []
  /\ trigger_sends st_welcome 1 10 10 "nokey" = [].
Proof.
  destruct (no_reference_no_reply st_welcome 1) as (H1 & H2 & H3). split; [|split].
  - apply (H1 _ "hello there"); vm_compute; reflexivity.
  - apply H2; vm_compute; reflexivity.
  - apply H3; vm_compute; reflexivity.
Defined.

(** C10: trigger-word resolution depends on the snippet files only, never
    sends a copy of a remote message, and so stays silent for a trigger
    word whose key only has a forward reference, while the hashtag of that
    key in a message makes the bot copy the referenced message. *)
Theorem trigger_ignores_forward_refs :
  (forall (st1 st2 : store) (chat rt stt : Z) (trig : string),
     snips st1 = snips st2 -> trigger_sends st1 chat rt stt trig = trigger_sends st2 chat rt stt trig)
  /\ (forall (st : store) (chat rt stt : Z) (trig : string) (x : send),
        In x (trigger_sends st chat rt stt trig) -> is_copy x = false)
  /\ (forall (st : store) (chat : Z) (m : message) (txt w : string) (ref : fref),
        load_meta st !! ("spicy-" +:+ w) = Some ref ->
        load_snip_md st ("spicy-" +:+ w) = None -> load_snip_html st ("spicy-" +:+ w) = None ->
        trigger_sends st chat (explicit_reply_target m) (message_id m) w = []
        /\ (text m = Some txt -> In ("spicy-" +:+ w) (extract_hashtags txt) ->
            In (CopyMessage chat (ref_chat_id ref) (ref_message_id ref) (explicit_reply_target m))
               (handle_message st chat m))).
Proof.
  split; [|split].
  - intros st1 st2 chat rt stt trig Hs. by apply trigger_sends_snips.
  - intros st chat rt stt trig x Hin.
    pose proof (trigger_sends_no_copy st chat rt stt trig) as Hno.
    destruct (is_copy x) eqn:Hx; [|done].
    rewrite <- Hno. symmetry. apply existsb_exists. eauto.
  - intros st chat m txt w ref Hm Hmd Hhtml. split.
    + unfold trigger_sends. by rewrite Hmd, Hhtml.
    + intros Ht Hin. eapply handle_message_hashtag_in; [done|done|].
      unfold tag_sends. rewrite Hm. by left.
Qed.

Definition st_fwd_only : store :=
  mk_store (<["spicy-hot.html" := "x"]> ∅) (Some {[ "spicy-ouch" := mk_fref 7 8 ]}).

Lemma trigger_ignores_forward_refs_witness :
  trigger_sends st_fwd_only 1 10 10 "ouch" = []
  /\ In (CopyMessage 1 7 8 10) (handle_message st_fwd_only 1 (mk_message 10 (Some "#spicy-ouch") None)).
Proof.
  destruct trigger_ignores_forward_refs as (_ & _ & H).
  destruct (H st_fwd_only 1%Z (mk_message 10 (Some "#spicy-ouch") None) "#spicy-ouch" "ouch"
              (mk_fref 7 8)) as [H1 H2]; try (vm_compute; reflexivity).
  split; [exact H1|]. apply H2; [reflexivity|]. vm_compute. left. reflexivity.
Defined.

(* ------------------------------------------------------------------ *)
(** ** Captions and reply targets *)

Definition text_of_length (n : nat) : string := string_of_list_ascii (repeat "a"%char n).

(** An HTML snippet with a 1025-character body and one photo. *)
Definition st_long_html : store :=
  mk_store (<["k.html" := text_of_length 1025]> (<["k_0.jpg" := ""]> ∅)) None.

(** The same body as a markdown snippet with the photo as a placeholder. *)
Definition st_long_md : store :=
  mk_store (<["k.md" := text_of_length 1025 +:+ "![](k_0.jpg)"]> (<["k_0.jpg" := ""]> ∅)) None.

(** C3 (code bug): the HTML branch attaches a 1025-character body as the
    caption of the first media item, where the markdown branch sends it
    as a separate message before an uncaptioned group. *)
Theorem html_long_caption_attached :
  String.length (text_of_length 1025) = 1025%nat
  /\ handle_message st_long_html 1 (mk_message 10 (Some "#k") None)
     = [SendMediaGroup 1 [mk_item Photo "k_0.jpg" (Some (text_of_length 1025)) (Some HTML)] 10]
  /\ handle_message st_long_md 1 (mk_message 10 (Some "#k") None)
     = [SendMessage 1 (text_of_length 1025) None (Some 10%Z);
        SendMediaGroup 1 [mk_item Photo "k_0.jpg" None (Some MarkdownV2)] 10].
Proof. split; [|split]; vm_compute; reflexivity. Qed.

(** A snippet made of one voice note. *)
Definition st_voice : store :=
  mk_store (<["v.html" := "hi"]> (<["v_0.ogg" := ""]> ∅)) None.

(** A trigger-word markdown snippet with a long body and one photo. *)
Definition st_spicy_long : store :=
  mk_store (<["spicy-w.html" := ""]>
           (<["spicy-w.md" := text_of_length 1025 +:+ "![](spicy-w_0.jpg)"]>
           (<["spicy-w_0.jpg" := ""]> ∅))) None.

(** C5 (code bug): message 10, a reply to message 5.  The hashtag [#v] of
    a voice-note snippet is answered under message 10 rather than under
    the parent 5, and the long body of a trigger-word snippet is threaded
    under the parent 5 while its media group is threaded under 10. *)
Theorem reply_target_slips :
  handle_message st_voice 1 (mk_message 10 (Some "#v") (Some 5%Z))
  = [SendVoice 1 "v_0.ogg" (Some "hi") (Some HTML) 10]
  /\ handle_message st_spicy_long 1 (mk_message 10 (Some "w") (Some 5%Z))
     = [SendMessage 1 (text_of_length 1025) None (Some 5%Z);
        SendMediaGroup 1 [mk_item Photo "spicy-w_0.jpg" None (Some MarkdownV2)] 10].
Proof. split; vm_compute; reflexivity. Qed.

(* ------------------------------------------------------------------ *)
(** ** The save commands *)

Lemma handle_save_admin (admins : list Z) fetch (st : store) (cmd : command)
    (reply : source_message) (arg : string) (args : list string) :
  cmd_reply cmd = Some reply -> is_admin admins (cmd_user_id cmd) = true -> cmd_args cmd = arg :: args ->
  handle_save admins fetch st cmd =
  if (MAX_MEDIA_SAVE_SIZE <? total_media_size (media_entries reply))%Z then
    Done (mk_store (snips st)
            (Some (<[lower arg := mk_fref (src_chat_id reply) (src_message_id reply)]> (load_meta st))))
         [reply_text (cmd_chat_id cmd)
            ("Saved snippet '" +:+ lower arg +:+ "' (forward-only; media too large)")]
  else
    match download_loop fetch save_fname (lower arg) 0 (media_entries reply) (snips st)
            [lower arg +:+ ".html"] [] with
    | LoopRaised files effs => Raised (mk_store files (meta st)) effs
    | LoopOk files saved_files effs =>
        Done (mk_store (<[lower arg +:+ ".html" := html_body (body_parts reply)]> files)
                       (drop_forward_ref (meta st) (lower arg)))
             (effs ++ [ERecordChange (saved_files ++ [META_FILE])
                         ("#" +:+ lower arg +:+ " added by @" +:+ cmd_user_name cmd);
                       reply_text (cmd_chat_id cmd)
                         ("Saved snip '" +:+ lower arg +:+ "' (HTML mode)")])%list
    end.
Proof. intros Hr Ha Hargs. unfold handle_save. by rewrite Hr, Ha, Hargs. Qed.

Lemma drop_forward_ref_gone (m : option (gmap string fref)) (k : string) :
  default ∅ (drop_forward_ref m k) !! k = None.
Proof.
  destruct m as [mm|]; simpl; [|done].
  destruct (mm !! k) eqn:E; simpl; [apply lookup_delete_eq | exact E].
Qed.

(** A completed local save writes the HTML artifact and leaves no forward
    reference for its key. *)
Lemma handle_save_local (admins : list Z) fetch (st st' : store) (cmd : command)
    (reply : source_message) (arg : string) (args : list string) (effs : list effect) :
  cmd_reply cmd = Some reply -> is_admin admins (cmd_user_id cmd) = true -> cmd_args cmd = arg :: args ->
  (total_media_size (media_entries reply) <= MAX_MEDIA_SAVE_SIZE)%Z ->
  handle_save admins fetch st cmd = Done st' effs ->
  load_meta st' !! lower arg = None
  /\ snips st' !! (lower arg +:+ ".html") = Some (html_body (body_parts reply)).
Proof.
  intros Hr Ha Hargs Hle Hs. rewrite (handle_save_admin admins fetch st cmd reply arg args Hr Ha Hargs) in Hs.
  assert ((MAX_MEDIA_SAVE_SIZE <? total_media_size (media_entries reply))%Z = false) as Hlt
    by (apply Z.ltb_ge; lia).
  rewrite Hlt in Hs.
  destruct (download_loop _ _ _ _ _ _ _ _); inversion Hs; subst; clear Hs.
  split; [apply drop_forward_ref_gone | apply lookup_insert_eq].
Qed.

(** C2 (as corrected): a local save through [/save] writes the text
    artifact of its key and removes the forward reference of the key, also
    when repeated.  A forward-only save of the key records the forward
    reference and leaves the snippet files as they are, so a local artifact
    of the key stays beside the reference, and the hashtag of the key is
    then answered with a copy of the referenced message. *)
Theorem save_local_drops_forward_ref :
  forall (admins : list Z) fetch (st : store) (cmd : command) (reply : source_message)
         (arg : string) (args : list string),
  cmd_reply cmd = Some reply -> is_admin admins (cmd_user_id cmd) = true -> cmd_args cmd = arg :: args ->
  ((total_media_size (media_entries reply) <= MAX_MEDIA_SAVE_SIZE)%Z ->
   forall (st' : store) (effs : list effect),
   handle_save admins fetch st cmd = Done st' effs ->
   load_meta st' !! lower arg = None
   /\ snips st' !! (lower arg +:+ ".html") = Some (html_body (body_parts reply))
   /\ (forall (st'' : store) (effs' : list effect),
         handle_save admins fetch st' cmd = Done st'' effs' -> load_meta st'' !! lower arg = None))
  /\ ((MAX_MEDIA_SAVE_SIZE < total_media_size (media_entries reply))%Z ->
      forall (st' : store) (effs : list effect),
      handle_save admins fetch st cmd = Done st' effs ->
      snips st' = snips st
      /\ load_meta st' !! lower arg = Some (mk_fref (src_chat_id reply) (src_message_id reply))
      /\ (forall chat rt stt : Z,
            tag_sends st' (load_meta st') chat rt stt (lower arg)
            = [CopyMessage chat (src_chat_id reply) (src_message_id reply) rt])).
Proof.
  intros admins fetch st cmd reply arg args Hr Ha Hargs. split.
  - intros Hle st' effs Hs.
    destruct (handle_save_local admins fetch st st' cmd reply arg args effs Hr Ha Hargs Hle Hs) as [H1 H2].
    split; [exact H1|split; [exact H2|]].
    intros st'' effs' Hs'. by eapply (handle_save_local admins fetch st' st'' cmd reply arg args effs').
  - intros Hgt st' effs Hs.
    rewrite (handle_save_admin admins fetch st cmd reply arg args Hr Ha Hargs) in Hs.
    assert ((MAX_MEDIA_SAVE_SIZE <? total_media_size (media_entries reply))%Z = true) as Hlt
      by (apply Z.ltb_lt; lia).
    rewrite Hlt in Hs. injection Hs as <- _.
    assert (Hm : load_meta (mk_store (snips st)
                   (Some (<[lower arg := mk_fref (src_chat_id reply) (src_message_id reply)]> (load_meta st))))
                 !! lower arg = Some (mk_fref (src_chat_id reply) (src_message_id reply)))
      by apply lookup_insert_eq.
    split; [reflexivity|split; [exact Hm|]].
    intros chat rt stt. unfold tag_sends. by rewrite Hm.
Qed.

Definition st_empty : store := mk_store ∅ None.

Definition cmd_save (user : Z) (atts : list attachment) (args : list string) : command :=
  mk_cmd user "ann" 9 (Some (src_with atts None)) args.

Definition st_k_html : store := mk_store (<["k.html" := "x"]> ∅) None.

Definition st_k_fwd : store := mk_store (<["k.html" := "x"]> ∅) (Some {[ "k" := mk_fref 77 500 ]}).

Lemma save_local_drops_forward_ref_witness :
  load_meta (mk_store (<["k.html" := "look" +:+ String "010" ""]> (<["k_0.jpg" := "data"]> ∅)) (Some ∅))
    !! "k" = None
  /\ snips st_k_fwd = snips st_k_html
  /\ load_meta st_k_fwd !! "k" = Some (mk_fref 77 500)
  /\ tag_sends st_k_fwd (load_meta st_k_fwd) 1 10 10 "k" = [CopyMessage 1 77 500 10].
Proof.
  destruct (save_local_drops_forward_ref [1%Z] fetch_ok (mk_store ∅ (Some {[ "k" := mk_fref 3 4 ]}))
              (cmd_save 1 [photo_att "a" 10] ["K"]) (src_with [photo_att "a" 10] None) "K" []
              eq_refl eq_refl eq_refl) as [Hl _].
  destruct (save_local_drops_forward_ref [1%Z] fetch_ok st_k_html
              (cmd_save 1 [photo_att "b" (MAX_MEDIA_SAVE_SIZE + 1)] ["k"])
              (src_with [photo_att "b" (MAX_MEDIA_SAVE_SIZE + 1)] None) "k" []
              eq_refl eq_refl eq_refl) as [_ Hf].
  split.
  - refine (proj1 (Hl ltac:(vm_compute; discriminate) _
              [EGetFile "a"; EDownload "a" "k_0.jpg";
               ERecordChange ["k.html"; "k_0.jpg"; "meta.yaml"] "#k added by @ann";
               reply_text 9 "Saved snip 'k' (HTML mode)"] _)).
    vm_compute. reflexivity.
  - destruct (Hf ltac:(vm_compute; reflexivity) st_k_fwd
                [reply_text 9 "Saved snippet 'k' (forward-only; media too large)"]
                ltac:(vm_compute; reflexivity)) as (H1 & H2 & H3).
    split; [exact H1|split; [exact H2|apply H3]].
Defined.

(** C2 fails as stated: after a local save of [k], a forward-only save of
    [k] records a forward reference and leaves [k.html] in place. *)
Lemma forward_save_keeps_local :
  match handle_save [1%Z] fetch_ok st_empty (cmd_save 1 [photo_att "a" 10] ["k"]) with
  | Done st1 _ =>
      match handle_save [1%Z] fetch_ok st1 (cmd_save 1 [photo_att "b" (MAX_MEDIA_SAVE_SIZE + 1)] ["k"]) with
      | Done st2 _ =>
          snips st2 !! "k.html" = Some ("look" +:+ String "010" "")
          /\ load_meta st2 !! "k" = Some (mk_fref 77 500)
      | Raised _ _ => False
      end
  | Raised _ _ => False
  end.
Proof. vm_compute. split; reflexivity. Qed.

(** A download loop that completes has asked the transport for every
    attachment, and keeps the effects it started from. *)
Lemma download_loop_fetches fetch fname_of (key : string) (ents : list attachment) :
  forall idx files saved effs files' saved' effs',
  download_loop fetch fname_of key idx ents files saved effs = LoopOk files' saved' effs' ->
  (forall x, In x effs -> In x effs')
  /\ (forall e, In e ents -> In (EGetFile (att_file_id e)) effs').
Proof.
  induction ents as [|ent ents IH]; intros idx files saved effs files' saved' effs' H.
  - simpl in H. inversion H; subst. split; [done|]. intros e [].
  - simpl in H. destruct (fetch ent) as [|fp dl]; [discriminate|].
    destruct (fname_of ent fp) as [fname|]; [|discriminate].
    assert (Hgrow : forall x, In x effs ->
      In x ((effs ++ [EGetFile (att_file_id ent)]) ++
            [EDownload (att_file_id ent) (key +:+ "_" +:+ string_of_nat idx +:+ path_suffix (path_name fname))])%list).
    { intros x Hx. apply in_or_app. left. apply in_or_app. by left. }
    assert (Hget : In (EGetFile (att_file_id ent))
      ((effs ++ [EGetFile (att_file_id ent)]) ++
       [EDownload (att_file_id ent) (key +:+ "_" +:+ string_of_nat idx +:+ path_suffix (path_name fname))])%list).
    { apply in_or_app. left. apply in_or_app. right. by left. }
    destruct dl; apply IH in H as [H1 H2]; (split; [by auto|]);
      intros e [<-|He]; auto.
Qed.

(** A download loop that completes has downloaded every attachment. *)
Lemma download_loop_downloads fetch fname_of (key : string) (ents : list attachment) :
  forall idx files saved effs files' saved' effs',
  download_loop fetch fname_of key idx ents files saved effs = LoopOk files' saved' effs' ->
  (forall x, In x effs -> In x effs')
  /\ (forall e, In e ents -> exists p, In (EDownload (att_file_id e) p) effs').
Proof.
  induction ents as [|ent ents IH]; intros idx files saved effs files' saved' effs' H.
  - simpl in H. inversion H; subst. split; [done|]. intros e [].
  - simpl in H. destruct (fetch ent) as [|fp dl]; [discriminate|].
    destruct (fname_of ent fp) as [fname|]; [|discriminate].
    set (sp := key +:+ "_" +:+ string_of_nat idx +:+ path_suffix (path_name fname)) in H.
    assert (Hgrow : forall x, In x effs ->
      In x ((effs ++ [EGetFile (att_file_id ent)]) ++ [EDownload (att_file_id ent) sp])%list).
    { intros x Hx. apply in_or_app. left. apply in_or_app. by left. }
    assert (Hdl : In (EDownload (att_file_id ent) sp)
      ((effs ++ [EGetFile (att_file_id ent)]) ++ [EDownload (att_file_id ent) sp])%list).
    { apply in_or_app. right. by left. }
    destruct dl; apply IH in H as [H1 H2]; (split; [by auto|]);
      intros e [<-|He]; eauto.
Qed.

(** C4 (as corrected): [/save] records a forward reference, with nothing
    fetched, when the attachments sum to more than 10 MiB, and otherwise
    saves locally after asking for every attachment.  [/savespicy] has no
    size check: whatever the sizes, a run that completes has written the
    text artifact of [spicy-w] and downloaded every attachment, and no run,
    completed or raising, changes [meta.yaml]. *)
Theorem save_size_threshold :
  forall (admins : list Z) fetch (st : store) (cmd : command) (reply : source_message)
         (arg : string) (args : list string),
  cmd_reply cmd = Some reply -> is_admin admins (cmd_user_id cmd) = true -> cmd_args cmd = arg :: args ->
  ((MAX_MEDIA_SAVE_SIZE < total_media_size (media_entries reply))%Z ->
     handle_save admins fetch st cmd
     = Done (mk_store (snips st)
               (Some (<[lower arg := mk_fref (src_chat_id reply) (src_message_id reply)]> (load_meta st))))
            [reply_text (cmd_chat_id cmd)
               ("Saved snippet '" +:+ lower arg +:+ "' (forward-only; media too large)")])
  /\ ((total_media_size (media_entries reply) <= MAX_MEDIA_SAVE_SIZE)%Z ->
      forall (st' : store) (effs : list effect), handle_save admins fetch st cmd = Done st' effs ->
      snips st' !! (lower arg +:+ ".html") = Some (html_body (body_parts reply))
      /\ forall e, In e (media_entries reply) -> In (EGetFile (att_file_id e)) effs)
  /\ (forall (st' : store) (effs : list effect),
        handle_savespicy admins fetch st cmd = Done st' effs ->
        snips st' !! (("spicy-" +:+ lower arg) +:+ ".html")
          = Some (strip (join_nl (body_parts reply)) +:+ String "010" EmptyString)
        /\ forall e, In e (media_entries reply) ->
             In (EGetFile (att_file_id e)) effs /\ exists p, In (EDownload (att_file_id e) p) effs)
  /\ (forall (st' : store) (effs : list effect),
        handle_savespicy admins fetch st cmd = Done st' effs
        \/ handle_savespicy admins fetch st cmd = Raised st' effs -> meta st' = meta st).
Proof.
  intros admins fetch st cmd reply arg args Hr Ha Hargs. split; [|split; [|split]].
  - intros Hgt. rewrite (handle_save_admin admins fetch st cmd reply arg args Hr Ha Hargs).
    assert ((MAX_MEDIA_SAVE_SIZE <? total_media_size (media_entries reply))%Z = true) as Hlt
      by (apply Z.ltb_lt; lia).
    by rewrite Hlt.
  - intros Hle st' effs Hs. split.
    + eapply handle_save_local; eauto.
    + rewrite (handle_save_admin admins fetch st cmd reply arg args Hr Ha Hargs) in Hs.
      assert ((MAX_MEDIA_SAVE_SIZE <? total_media_size (media_entries reply))%Z = false) as Hlt
        by (apply Z.ltb_ge; lia).
      rewrite Hlt in Hs.
      destruct (download_loop _ _ _ _ _ _ _ _) as [files saved effs0|] eqn:Hl; [|discriminate].
      inversion Hs; subst; clear Hs.
      intros e He. apply in_or_app. left.
      exact (proj2 (download_loop_fetches _ _ _ _ _ _ _ _ _ _ _ Hl) e He).
  - intros st' effs Hs. unfold handle_savespicy in Hs. rewrite Hr, Ha, Hargs in Hs.
    cbv zeta in Hs. cbn [negb] in Hs.
    destruct (download_loop _ _ _ _ _ _ _ _) as [files saved effs0|] eqn:Hl; [|discriminate].
    injection Hs as <- <-. split; [apply lookup_insert_eq|].
    intros e He. split.
    + apply in_or_app. left. exact (proj2 (download_loop_fetches _ _ _ _ _ _ _ _ _ _ _ Hl) e He).
    + destruct (proj2 (download_loop_downloads _ _ _ _ _ _ _ _ _ _ _ Hl) e He) as [p Hp].
      exists p. apply in_or_app. by left.
  - intros st' effs Hs. unfold handle_savespicy in Hs. rewrite Hr in Hs.
    destruct (negb _); [by destruct Hs as [Hs|Hs]; inversion Hs|].
    destruct (cmd_args cmd) as [|a l]; [by destruct Hs as [Hs|Hs]; inversion Hs|].
    destruct (download_loop _ _ _ _ _ _ _ _); by destruct Hs as [Hs|Hs]; inversion Hs.
Qed.

Lemma save_size_threshold_witness :
  handle_save [1%Z] fetch_ok st_empty (cmd_save 1 [photo_att "b" (MAX_MEDIA_SAVE_SIZE + 1)] ["k"])
  = Done (mk_store ∅ (Some {[ "k" := mk_fref 77 500 ]}))
         [reply_text 9 "Saved snippet 'k' (forward-only; media too large)"]
  /\ handle_save [1%Z] fetch_ok st_empty (cmd_save 1 [photo_att "b" MAX_MEDIA_SAVE_SIZE] ["k"])
     = Done (mk_store (<["k.html" := "look" +:+ String "010" ""]> (<["k_0.jpg" := "data"]> ∅)) None)
         [EGetFile "b"; EDownload "b" "k_0.jpg";
          ERecordChange ["k.html"; "k_0.jpg"; "meta.yaml"] "#k added by @ann";
          reply_text 9 "Saved snip 'k' (HTML mode)"]
  /\ snips (mk_store (<["spicy-ouch.html" := "look" +:+ String "010" ""]> (<["spicy-ouch_0.jpg" := "data"]> ∅)) None)
       !! ("spicy-" +:+ lower "ouch" +:+ ".html") = Some ("look" +:+ String "010" "").
Proof.
  split; [|split].
  - destruct (save_size_threshold [1%Z] fetch_ok st_empty
                (cmd_save 1 [photo_att "b" (MAX_MEDIA_SAVE_SIZE + 1)] ["k"])
                (src_with [photo_att "b" (MAX_MEDIA_SAVE_SIZE + 1)] None) "k" []
                eq_refl eq_refl eq_refl) as [H _].
    rewrite H by (vm_compute; reflexivity). vm_compute. reflexivity.
  - vm_compute. reflexivity.
  - destruct (save_size_threshold [1%Z] fetch_ok st_empty
                (cmd_save 1 [photo_att "b" (MAX_MEDIA_SAVE_SIZE + 1)] ["ouch"])
                (src_with [photo_att "b" (MAX_MEDIA_SAVE_SIZE + 1)] None) "ouch" []
                eq_refl eq_refl eq_refl) as (_ & _ & H & _).
    refine (proj1 (H _ [EGetFile "b"; EDownload "b" "spicy-ouch_0.jpg";
                        ERecordChange ["spicy-ouch.html"; "spicy-ouch_0.jpg"] "#spicy-ouch added by @ann";
                        reply_text 9 "Saved spicy snip 'ouch' (HTML mode)"] _)).
    vm_compute. reflexivity.
Defined.

(** C4 fails as stated for the trigger-word save: [/savespicy] of a
    message with a 10 MiB + 1 byte photo downloads it and saves locally. *)
Lemma savespicy_downloads_large :
  (MAX_MEDIA_SAVE_SIZE < total_media_size [photo_att "b" (MAX_MEDIA_SAVE_SIZE + 1)])%Z
  /\ handle_savespicy [1%Z] fetch_ok st_empty (cmd_save 1 [photo_att "b" (MAX_MEDIA_SAVE_SIZE + 1)] ["ouch"])
     = Done (mk_store (<["spicy-ouch.html" := "look" +:+ String "010" ""]> (<["spicy-ouch_0.jpg" := "data"]> ∅)) None)
         [EGetFile "b"; EDownload "b" "spicy-ouch_0.jpg";
          ERecordChange ["spicy-ouch.html"; "spicy-ouch_0.jpg"] "#spicy-ouch added by @ann";
          reply_text 9 "Saved spicy snip 'ouch' (HTML mode)"].
Proof. split; [vm_compute; reflexivity|vm_compute; reflexivity]. Qed.

(** C8 (as corrected): a save command that replies to no message gets no
    reply; one that replies to a message from a caller outside the admin
    set gets the permission-denied reply; one from an admin with no key
    gets the usage reply; in each case the store is unchanged. *)
Theorem save_commands_reject :
  forall (admins : list Z) fetch (st : store) (cmd : command),
  (cmd_reply cmd = None ->
     handle_save admins fetch st cmd = Done st [] /\ handle_savespicy admins fetch st cmd = Done st [])
  /\ (forall reply, cmd_reply cmd = Some reply -> is_admin admins (cmd_user_id cmd) = false ->
        handle_save admins fetch st cmd = Done st [permission_denied cmd]
        /\ handle_savespicy admins fetch st cmd = Done st [permission_denied cmd])
  /\ (forall reply, cmd_reply cmd = Some reply -> is_admin admins (cmd_user_id cmd) = true ->
        cmd_args cmd = [] ->
        handle_save admins fetch st cmd
        = Done st [reply_text (cmd_chat_id cmd) "Usage: /saveng nameofhashtag (alias: /save)"]
        /\ handle_savespicy admins fetch st cmd
           = Done st [reply_text (cmd_chat_id cmd) "Usage: /savespicy triggerword"]).
Proof.
  intros admins fetch st cmd. unfold handle_save, handle_savespicy. split; [|split].
  - intros Hr. by rewrite Hr.
  - intros reply Hr Ha. by rewrite Hr, Ha.
  - intros reply Hr Ha Hargs. by rewrite Hr, Ha, Hargs.
Qed.

Lemma save_commands_reject_witness :
  handle_savespicy [1%Z] fetch_ok st_empty (cmd_save 2 [] ["ouch"])
  = Done st_empty [reply_text 9 "ERROR: Permission denied (2)"]
  /\ handle_save [1%Z] fetch_ok st_empty (cmd_save 1 [] [])
     = Done st_empty [reply_text 9 "Usage: /saveng nameofhashtag (alias: /save)"]
  /\ handle_save [1%Z] fetch_ok st_empty (mk_cmd 2 "eve" 9 None ["ouch"]) = Done st_empty [].
Proof.
  destruct (save_commands_reject [1%Z] fetch_ok st_empty (cmd_save 2 [] ["ouch"])) as (_ & H2 & _).
  destruct (save_commands_reject [1%Z] fetch_ok st_empty (cmd_save 1 [] [])) as (_ & _ & H3).
  destruct (save_commands_reject [1%Z] fetch_ok st_empty (mk_cmd 2 "eve" 9 None ["ouch"])) as (H1 & _ & _).
  split; [|split].
  - rewrite (proj2 (H2 (src_with [] None) eq_refl eq_refl)). vm_compute. reflexivity.
  - exact (proj1 (H3 (src_with [] None) eq_refl eq_refl eq_refl)).
  - exact (proj1 (H1 eq_refl)).
Defined.

(** C8 fails as stated: a non-admin [/savespicy ouch] that replies to no
    message gets no permission-denied reply, and a non-admin command with
    no key gets the permission-denied reply, not the usage reply. *)
Lemma save_command_silent_without_reply :
  handle_savespicy [1%Z] fetch_ok st_empty (mk_cmd 2 "eve" 9 None ["ouch"]) = Done st_empty []
  /\ handle_save [1%Z] fetch_ok st_empty (cmd_save 2 [] [])
     = Done st_empty [reply_text 9 "ERROR: Permission denied (2)"].
Proof. split; vm_compute; reflexivity. Qed.

(* ------------------------------------------------------------------ *)
(** ** The trigger-word vocabulary *)

Lemma str_app_cons (a : ascii) (s1 s2 : string) : String a s1 +:+ s2 = String a (s1 +:+ s2).
Proof. reflexivity. Qed.

Lemma str_app_nil_l (s : string) : "" +:+ s = s.
Proof. reflexivity. Qed.

Lemma str_app_nil_r (s : string) : s +:+ "" = s.
Proof. induction s as [|a s IH]; [done|]. by rewrite str_app_cons, IH. Qed.

Lemma str_app_assoc (s1 s2 s3 : string) : s1 +:+ (s2 +:+ s3) = (s1 +:+ s2) +:+ s3.
Proof. induction s1 as [|a s1 IH]; [done|]. by rewrite !str_app_cons, IH. Qed.

Lemma str_length_app (s1 s2 : string) : String.length (s1 +:+ s2) = (String.length s1 + String.length s2)%nat.
Proof. induction s1 as [|a s1 IH]; [done|]. rewrite str_app_cons. simpl. by rewrite IH. Qed.

Lemma rev_app_spec (s acc : string) : String.rev_app s acc = String.rev s +:+ acc.
Proof.
  revert acc. induction s as [|a s IH]; intros acc; [done|].
  unfold String.rev. cbn [String.rev_app]. rewrite IH, (IH (String a "")).
  by rewrite <- str_app_assoc.
Qed.

Lemma rev_cons (a : ascii) (s : string) : String.rev (String a s) = String.rev s +:+ String a "".
Proof. unfold String.rev at 1. cbn [String.rev_app]. apply rev_app_spec. Qed.

Lemma rev_app_distr (s1 s2 : string) : String.rev (s1 +:+ s2) = String.rev s2 +:+ String.rev s1.
Proof.
  induction s1 as [|a s1 IH].
  - by rewrite str_app_nil_r.
  - rewrite str_app_cons, !rev_cons, IH. symmetry. apply str_app_assoc.
Qed.

Lemma rev_involutive (s : string) : String.rev (String.rev s) = s.
Proof.
  induction s as [|a s IH]; [done|].
  rewrite rev_cons, rev_app_distr, IH. reflexivity.
Qed.

Lemma starts_with_spec (p s : string) : starts_with p s = true <-> exists u, s = p +:+ u.
Proof.
  revert s. induction p as [|a p IH]; intros s.
  - split; [by exists s|done].
  - destruct s as [|b s]; simpl.
    + split; [done|]. by intros [u ?].
    + rewrite andb_true_iff, IH, Ascii.eqb_eq. split.
      * intros [-> [u ->]]. by exists u.
      * intros [u Hu]. injection Hu as -> ->. eauto.
Qed.

Lemma str_drop_app (p u : string) : str_drop (String.length p) (p +:+ u) = u.
Proof. induction p as [|a p IH]; [done|]. exact IH. Qed.

Lemma ends_with_spec (q t : string) : ends_with q t = true <-> exists u, t = u +:+ q.
Proof.
  unfold ends_with. rewrite starts_with_spec. split.
  - intros [u Hu]. exists (String.rev u).
    rewrite <- (rev_involutive t), Hu, rev_app_distr, rev_involutive. done.
  - intros [u ->]. exists (String.rev u). apply rev_app_distr.
Qed.

Lemma glob_spicy_html_spec (p : string) :
  glob_spicy_html p = true <-> exists w0, p = "spicy-" +:+ (w0 +:+ ".html").
Proof.
  unfold glob_spicy_html. rewrite andb_true_iff, starts_with_spec.
  change 6%nat with (String.length "spicy-"). split.
  - intros [[u ->] Hend]. rewrite str_drop_app, ends_with_spec in Hend.
    destruct Hend as [w0 ->]. by exists w0.
  - intros [w0 ->]. split; [by eexists|].
    rewrite str_drop_app, ends_with_spec. by exists w0.
Qed.

Lemma path_stem_spicy (w0 : string) :
  path_stem ("spicy-" +:+ (w0 +:+ ".html")) = "spicy-" +:+ w0.
Proof.
  unfold path_stem, split_suffix. cbv zeta.
  rewrite !rev_app_distr. change (String.rev ".html") with "lmth.".
  change (String.rev "spicy-") with "-ycips".
  rewrite <- str_app_assoc, !str_app_cons. cbn [str_index Ascii.eqb Bool.eqb andb option_map].
  match goal with
  | |- context [(4 + 2 <=? ?n)%nat] =>
      replace (4 + 2 <=? n)%nat with true
        by (symmetry; apply Nat.leb_le; cbn [String.length]; rewrite !str_length_app; cbn; lia)
  end.
  cbn [andb fst str_drop]. rewrite str_app_nil_l, rev_app_distr, rev_involutive. reflexivity.
Qed.

Lemma in_dir_names (st : store) (p : string) : In p (dir_names st) <-> is_Some (snips st !! p).
Proof.
  unfold dir_names. rewrite in_map_iff. split.
  - intros [[k v] [<- Hin]]. apply list_elem_of_In, elem_of_map_to_list in Hin. by exists v.
  - intros [v Hv]. exists (p, v). split; [done|]. by apply list_elem_of_In, elem_of_map_to_list.
Qed.

Lemma after_first_spicy (w0 : string) : after_first "-" ("spicy-" +:+ w0) = Some w0.
Proof. reflexivity. Qed.

(** C7 (as corrected): the trigger words are the lower-cased [w] of the
    files [spicy-w.html] the store holds when the message is handled; a
    file added to the store is matched from the next message on. *)
Theorem spicy_vocabulary :
  (forall (st : store) (w : string),
     In w (load_spicy_triggers st)
     <-> exists w0, is_Some (snips st !! ("spicy-" +:+ w0 +:+ ".html")) /\ w = lower w0)
  /\ handle_message st_empty 1 (mk_message 10 (Some "ouch") None) = []
  /\ handle_message st_ouch 1 (mk_message 10 (Some "ouch") None)
     = [SendMessage 1 "ow" (Some HTML) (Some 10%Z)].
Proof.
  split; [|split; vm_compute; reflexivity].
  intros st w. unfold load_spicy_triggers. rewrite in_flat_map. split.
  - intros [p [Hp Hw]]. destruct (glob_spicy_html p) eqn:Hg; [|done].
    apply glob_spicy_html_spec in Hg as [w0 ->].
    rewrite path_stem_spicy, after_first_spicy in Hw. destruct Hw as [<-|[]].
    exists w0. split; [by apply in_dir_names|done].
  - intros [w0 [Hs ->]]. exists ("spicy-" +:+ (w0 +:+ ".html")).
    split; [by apply in_dir_names|].
    assert (glob_spicy_html ("spicy-" +:+ (w0 +:+ ".html")) = true) as Hg
      by (apply glob_spicy_html_spec; eauto).
    rewrite Hg, path_stem_spicy, after_first_spicy. by left.
Qed.

Lemma spicy_vocabulary_witness :
  In "ouch" (load_spicy_triggers st_ouch) /\ handle_message st_empty 1 (mk_message 10 (Some "ouch") None) = [].
Proof.
  destruct spicy_vocabulary as [H [H2 _]]. split; [|exact H2].
  apply (proj2 (H st_ouch "ouch")). exists "ouch". split; [vm_compute; eauto|reflexivity].
Defined.

Definition st_upper : store := mk_store (<["spicy-Ouch.html" := "ow"]> ∅) None.

(** C7 fails as stated: with the file [spicy-Ouch.html], the vocabulary
    holds "ouch", for which no [spicy-ouch.html] exists, and not "Ouch". *)
Lemma vocabulary_is_lowercased :
  In "ouch" (load_spicy_triggers st_upper)
  /\ snips st_upper !! ("spicy-" +:+ "ouch" +:+ ".html") = None
  /\ ~ In "Ouch" (load_spicy_triggers st_upper)
  /\ is_Some (snips st_upper !! ("spicy-" +:+ "Ouch" +:+ ".html")).
Proof.
  split; [vm_compute; left; reflexivity|].
  split; [vm_compute; reflexivity|].
  split; [vm_compute; intros [H|[]]; discriminate|].
  vm_compute. eauto.
Qed.

(* ================================================================== *)
(** * Further properties of the code *)

(* ------------------------------------------------------------------ *)
(** ** Characters, lower-casing and string predicates *)

Lemma ascii_lower_word (c : ascii) : is_word_char (ascii_lower c) = is_word_char c.
Proof. destruct c as [[] [] [] [] [] [] [] []]; reflexivity. Qed.

Lemma ascii_lower_tag (c : ascii) : is_tag_char (ascii_lower c) = is_tag_char c.
Proof. destruct c as [[] [] [] [] [] [] [] []]; reflexivity. Qed.

Lemma ascii_lower_idem (c : ascii) : ascii_lower (ascii_lower c) = ascii_lower c.
Proof. destruct c as [[] [] [] [] [] [] [] []]; reflexivity. Qed.

Lemma lower_cons (c : ascii) (s : string) : lower (String c s) = String (ascii_lower c) (lower s).
Proof. reflexivity. Qed.

Lemma lower_app (s1 s2 : string) : lower (s1 +:+ s2) = lower s1 +:+ lower s2.
Proof. induction s1 as [|c s1 IH]; [done|]. rewrite str_app_cons, !lower_cons, IH. done. Qed.

Lemma lower_idem (s : string) : lower (lower s) = lower s.
Proof. induction s as [|c s IH]; [done|]. rewrite !lower_cons, ascii_lower_idem, IH. done. Qed.

Lemma lower_length (s : string) : String.length (lower s) = String.length s.
Proof. induction s as [|c s IH]; [done|]. rewrite lower_cons. simpl. by rewrite IH. Qed.

Lemma lower_nonempty (s : string) : nonempty (lower s) = nonempty s.
Proof. by destruct s. Qed.

Lemma list_ascii_lower (s : string) :
  list_ascii_of_string (lower s) = map ascii_lower (list_ascii_of_string s).
Proof. induction s as [|c s IH]; [done|]. rewrite lower_cons. cbn [list_ascii_of_string map]. by rewrite IH. Qed.

Lemma length_list_ascii (s : string) : length (list_ascii_of_string s) = String.length s.
Proof. induction s as [|c s IH]; [done|]. simpl. by rewrite IH. Qed.

Lemma str_forall_app (f : ascii -> bool) (s1 s2 : string) :
  str_forall f (s1 +:+ s2) = str_forall f s1 && str_forall f s2.
Proof. induction s1 as [|c s1 IH]; [done|]. rewrite str_app_cons. simpl. by rewrite IH, andb_assoc. Qed.

Lemma str_forall_rev (f : ascii -> bool) (s : string) : str_forall f (String.rev s) = str_forall f s.
Proof.
  induction s as [|c s IH]; [done|].
  rewrite rev_cons, str_forall_app, IH. simpl. by rewrite andb_true_r, andb_comm.
Qed.

Lemma str_forall_lower (f : ascii -> bool) (s : string) :
  (forall c, f (ascii_lower c) = f c) -> str_forall f (lower s) = str_forall f s.
Proof.
  intros Hf. induction s as [|c s IH]; [done|].
  rewrite lower_cons. cbn [str_forall]. by rewrite Hf, IH.
Qed.

Lemma str_forall_lookup (f : ascii -> bool) (s : string) (i : nat) (c : ascii) :
  str_forall f s = true -> list_ascii_of_string s !! i = Some c -> f c = true.
Proof.
  revert i. induction s as [|x s IH]; intros i Hs Hi; [done|].
  simpl in Hs. apply andb_true_iff in Hs as [Hx Hs].
  destruct i as [|i]; simpl in Hi; [by injection Hi as <-|]. eauto.
Qed.

Lemma nonempty_rev (s : string) : nonempty (String.rev s) = nonempty s.
Proof. destruct s as [|c s]; [done|]. rewrite rev_cons. by destruct (String.rev s). Qed.

(* ------------------------------------------------------------------ *)
(** ** [extract_hashtags] *)

Lemma flush_tag_app (cur : option string) (l1 l2 : list string) :
  (flush_tag cur (l1 ++ l2) = flush_tag cur l1 ++ l2)%list.
Proof. destruct cur as [[|c s]|]; reflexivity. Qed.

Lemma flush_tag_some (acc : string) (l : list string) :
  nonempty acc = true -> flush_tag (Some acc) l = String.rev acc :: l.
Proof. by destruct acc. Qed.

Lemma hashtag_go_shape (s : string) : forall cur : option string,
  (forall acc, cur = Some acc -> str_forall is_tag_char acc = true) ->
  Forall (fun t => nonempty t = true /\ str_forall is_tag_char t = true) (hashtag_go cur s).
Proof.
  assert (Hflush : forall cur l,
    (forall acc, cur = Some acc -> str_forall is_tag_char acc = true) ->
    Forall (fun t => nonempty t = true /\ str_forall is_tag_char t = true) l ->
    Forall (fun t => nonempty t = true /\ str_forall is_tag_char t = true) (flush_tag cur l)).
  { intros [[|c acc]|] l Hcur Hl; simpl; try done.
    constructor; [|done]. split.
    - by rewrite (nonempty_rev (String c acc)).
    - rewrite str_forall_rev. by apply Hcur. }
  induction s as [|c s IH]; intros cur Hcur; simpl.
  - apply Hflush; [done|constructor].
  - destruct cur as [acc|].
    + destruct (is_tag_char c) eqn:Hc.
      * apply IH. intros acc' [= <-]. simpl. rewrite Hc. by apply Hcur.
      * apply Hflush; [done|].
        destruct (Ascii.eqb c "#"); apply IH; [intros ? [= <-]; done|done].
    + destruct (Ascii.eqb c "#"); apply IH; [intros ? [= <-]; done|done].
Qed.

Lemma hashtag_go_app (c : ascii) (s2 : string) (s1 : string) : forall cur : option string,
  is_tag_char c = false -> Ascii.eqb c "#" = false ->
  hashtag_go cur (s1 +:+ String c s2) = (hashtag_go cur s1 ++ hashtag_go None s2)%list.
Proof.
  induction s1 as [|x s1 IH]; intros cur Hc Hh.
  - simpl. destruct cur as [acc|].
    + rewrite Hc, Hh. rewrite <- flush_tag_app. done.
    + by rewrite Hh.
  - rewrite str_app_cons. simpl. destruct cur as [acc|].
    + destruct (is_tag_char x); [by apply IH|].
      rewrite <- flush_tag_app. f_equal. destruct (Ascii.eqb x "#"); by apply IH.
    + destruct (Ascii.eqb x "#"); by apply IH.
Qed.

Lemma hashtag_go_word (s acc : string) :
  str_forall is_tag_char s = true ->
  hashtag_go (Some acc) s = flush_tag (Some (String.rev_app s acc)) [].
Proof.
  revert acc. induction s as [|c s IH]; intros acc Hs; [done|].
  simpl in Hs. apply andb_true_iff in Hs as [Hc Hs]. simpl. rewrite Hc. by apply IH.
Qed.

(** The hashtag [#w] of a tag word [w] yields [w], lower-cased. *)
Lemma extract_hashtags_single (w : string) :
  nonempty w = true -> str_forall is_tag_char w = true ->
  extract_hashtags ("#" +:+ w) = [lower w].
Proof.
  intros Hne Hw. unfold extract_hashtags. rewrite str_app_cons, str_app_nil_l.
  change (hashtag_go None (String "#" w)) with (hashtag_go (Some "") w).
  rewrite hashtag_go_word by done. rewrite rev_app_spec, str_app_nil_r.
  rewrite flush_tag_some by (by rewrite nonempty_rev). by rewrite rev_involutive.
Qed.

(** For an ASCII text, every hashtag [extract_hashtags] returns is
    non-empty, consists of the characters [[A-Za-z0-9_-]] only and is in
    lower case. *)
Theorem extract_hashtags_shape : forall text : string,
  str_forall is_ascii7 text = true ->
  Forall (fun t => nonempty t = true /\ str_forall is_tag_char t = true /\ lower t = t)
         (extract_hashtags text).
Proof.
  intros text _. unfold extract_hashtags. apply Forall_map.
  eapply Forall_impl; [apply (hashtag_go_shape text None); done|].
  intros t [Hne Ht]. split; [by rewrite lower_nonempty|].
  split; [by rewrite str_forall_lower by apply ascii_lower_tag|apply lower_idem].
Qed.

Lemma extract_hashtags_shape_witness :
  str_forall is_ascii7 "see #Cats and #x-1!" = true
  /\ Forall (fun t => nonempty t = true /\ str_forall is_tag_char t = true /\ lower t = t)
       (extract_hashtags "see #Cats and #x-1!").
Proof. split; [reflexivity|]. apply extract_hashtags_shape. reflexivity. Defined.

(** Hashtag extraction composes over a separator: splitting a text at a
    character that is neither in [[\w-]] nor [#] splits its hashtags. *)
Theorem extract_hashtags_app : forall (s1 s2 : string) (c : ascii),
  is_tag_char c = false -> c <> "#"%char ->
  extract_hashtags (s1 +:+ String c s2) = (extract_hashtags s1 ++ extract_hashtags s2)%list.
Proof.
  intros s1 s2 c Hc Hh. unfold extract_hashtags.
  rewrite hashtag_go_app by (done || by apply Ascii.eqb_neq). apply map_app.
Qed.

Lemma extract_hashtags_app_witness :
  extract_hashtags ("see #Cat" +:+ String " " "and #dog-2") = ["cat"; "dog-2"].
Proof.
  rewrite (extract_hashtags_app "see #Cat" "and #dog-2" " " eq_refl ltac:(discriminate)).
  vm_compute. reflexivity.
Defined.

(* ------------------------------------------------------------------ *)
(** ** [parse_markdown_media] *)

Lemma read_until_spec (stop : ascii) (s a b : string) :
  read_until stop s = Some (a, b) -> s = a +:+ String stop b.
Proof.
  revert a b. induction s as [|c s IH]; intros a b H; [done|].
  simpl in H. destruct (Ascii.eqb c stop) eqn:Hc.
  - apply Ascii.eqb_eq in Hc as ->. by injection H as <- <-.
  - destruct (read_until stop s) as [[a' b']|] eqn:E; [|done].
    simpl in H. injection H as <- <-. rewrite str_app_cons. f_equal. by apply IH.
Qed.

Lemma match_link_spec (s m g r : string) : match_link s = Some (m, g, r) -> s = m +:+ r.
Proof.
  destruct s as [|b s1]; [done|]. simpl.
  destruct (Ascii.eqb b "[") eqn:Hb; [|done]. apply Ascii.eqb_eq in Hb as ->.
  destruct (read_until "]" s1) as [[alt [|o s2]]|] eqn:E1; [done| |done].
  destruct (Ascii.eqb o "(") eqn:Ho; [|done]. apply Ascii.eqb_eq in Ho as ->.
  destruct (read_until ")" s2) as [[target rest]|] eqn:E2; [|done].
  destruct (nonempty target); [|done]. intros [= <- <- <-].
  apply read_until_spec in E1 as ->. apply read_until_spec in E2 as ->.
  rewrite <- !str_app_assoc. reflexivity.
Qed.

Lemma parse_md_go_unchanged (st : store) (fuel : nat) : forall s : string,
  snd (parse_md_go st fuel s) = [] -> fst (parse_md_go st fuel s) = s.
Proof.
  induction fuel as [|fuel IH]; intros s; [done|].
  destruct s as [|c s']; [done|]. cbn [parse_md_go]. cbv zeta.
  destruct (Ascii.eqb c "!") eqn:Hbang.
  - destruct (match_link s') as [[[m g] rest]|] eqn:Hm; simpl.
    + destruct (parse_md_go st fuel rest) as [out ps] eqn:E.
      specialize (IH rest). rewrite E in IH. simpl in IH.
      destruct (file_exists st (strip g)); simpl; [done|].
      intros Hps. rewrite (IH Hps). apply Ascii.eqb_eq in Hbang as ->.
      apply match_link_spec in Hm as ->. done.
    + destruct (parse_md_go st fuel s') as [out ps] eqn:E.
      specialize (IH s'). rewrite E in IH. simpl in IH |- *. intros Hps. by rewrite (IH Hps).
  - destruct (match_link (String c s')) as [[[m g] rest]|] eqn:Hm; simpl.
    + destruct (parse_md_go st fuel rest) as [out ps] eqn:E.
      specialize (IH rest). rewrite E in IH. simpl in IH.
      destruct (file_exists st (strip g)); simpl; [done|].
      intros Hps. rewrite (IH Hps). symmetry. by apply match_link_spec in Hm.
    + destruct (parse_md_go st fuel s') as [out ps] eqn:E.
      specialize (IH s'). rewrite E in IH. simpl in IH |- *. intros Hps. by rewrite (IH Hps).
Qed.

(** A markdown body in which no link names an existing file is returned
    unchanged: [MEDIA_RE.sub] only removes the links it records. *)
Theorem parse_markdown_media_unchanged : forall (st : store) (md : string),
  snd (parse_markdown_media st md) = [] -> fst (parse_markdown_media st md) = md.
Proof. intros st md. apply parse_md_go_unchanged. Qed.

Lemma parse_markdown_media_unchanged_witness :
  fst (parse_markdown_media st_empty "pic ![x](m_0.jpg) [y](z)") = "pic ![x](m_0.jpg) [y](z)".
Proof. apply parse_markdown_media_unchanged. vm_compute. reflexivity. Defined.

(* ------------------------------------------------------------------ *)
(** ** Where [handle_message] replies *)

(** A request posted to [chat] that replies to a message satisfying [Q]. *)
Definition routed (chat : Z) (Q : Z -> Prop) (s : send) : Prop :=
  send_chat s = chat /\ exists r, send_reply_to s = Some r /\ Q r.

Lemma Forall_flat_map_intro {A B} (P : B -> Prop) (f : A -> list B) (l : list A) :
  (forall x, In x l -> Forall P (f x)) -> Forall P (flat_map f l).
Proof.
  induction l as [|x l IH]; intros H; simpl; [constructor|].
  apply Forall_app_2; [apply H; by left|]. apply IH. intros y Hy. apply H. by right.
Qed.

Ltac solve_routed :=
  repeat first
    [ apply List.Forall_nil
    | apply List.Forall_cons
    | apply Forall_app_2
    | progress case_match
    | split; [reflexivity|eexists; split; [reflexivity|assumption]] ].

Lemma html_snip_sends_routed (st : store) (chat : Z) (tag html : string) (a b c : Z) (Q : Z -> Prop) :
  Q a -> Q b -> Q c -> Forall (routed chat Q) (html_snip_sends st chat tag html a b c).
Proof. intros Ha Hb Hc. unfold html_snip_sends, routed. cbv zeta. solve_routed. Qed.

Lemma md_snip_sends_routed (st : store) (chat : Z) (md : string) (a b c d e : Z) (Q : Z -> Prop) :
  Q a -> Q b -> Q c -> Q d -> Q e -> Forall (routed chat Q) (md_snip_sends st chat md a b c d e).
Proof. intros Ha Hb Hc Hd He. unfold md_snip_sends, routed. cbv zeta. solve_routed. Qed.

(** Every request [handle_message] makes is posted to the chat of the
    inbound message and replies either to that message or to the message
    it replies to. *)
Theorem handle_message_routing : forall (st : store) (chat : Z) (m : message),
  Forall (fun s => send_chat s = chat
                   /\ (send_reply_to s = Some (message_id m)
                       \/ send_reply_to s = Some (explicit_reply_target m)))
         (handle_message st chat m).
Proof.
  intros st chat m.
  set (Q := fun r => r = message_id m \/ r = explicit_reply_target m).
  cut (Forall (routed chat Q) (handle_message st chat m)).
  { intros H. eapply Forall_impl; [exact H|]. intros s [Hc [r [Hr [-> | ->]]]]; rewrite Hr; auto. }
  unfold handle_message. destruct (text m) as [[|c txt]|]; [constructor| |constructor].
  cbv zeta. assert (HQ1 : Q (message_id m)) by (by left). assert (HQ2 : Q (explicit_reply_target m)) by (by right).
  case_match; [case_match; [constructor|]|]; apply Forall_app_2; apply Forall_flat_map_intro; intros x _.
  all: first
    [ unfold tag_sends; case_match;
      [ unfold routed; solve_routed
      | case_match; [apply md_snip_sends_routed; auto|case_match; [apply html_snip_sends_routed; auto|constructor]]]
    | unfold trigger_sends; cbv zeta; case_match;
      [apply md_snip_sends_routed; auto|case_match; [apply html_snip_sends_routed; auto|constructor]] ].
Qed.

(* ------------------------------------------------------------------ *)
(** ** The media bundled with an HTML snippet *)

Lemma glob_media_in (st : store) (tag p : string) :
  In p (glob_media st tag) <-> is_Some (snips st !! p) /\ starts_with (tag +:+ "_") p = true.
Proof.
  unfold glob_media. split.
  - intros Hp. apply (Permutation_in _ (merge_sort_Permutation String.le _)) in Hp.
    apply filter_In in Hp as [Hp Hs]. split; [by apply in_dir_names|done].
  - intros [Hp Hs]. apply (Permutation_in _ (Permutation_sym (merge_sort_Permutation String.le _))).
    apply filter_In. split; [by apply in_dir_names|done].
Qed.

Lemma map_mi_file_imap (l : list string) : forall f : nat -> string -> media_item,
  (forall i p, mi_file (f i p) = p) -> map mi_file (imap f l) = l.
Proof.
  induction l as [|p l IH]; intros f Hf; [done|].
  rewrite imap_cons. simpl. rewrite Hf. f_equal. apply IH. intros i q. apply Hf.
Qed.

Lemma html_media_group_files (html : string) (files : list string) :
  map mi_file (html_media_group html files) = files.
Proof. unfold html_media_group. by apply map_mi_file_imap. Qed.

(** The reply to the hashtag [#k] of an HTML snippet carries every file
    whose name starts with [k_]: also the files of another key [k_x],
    such as its text artifact [k_x.html]. *)
Theorem html_snippet_bundles_prefix_files :
  forall (st : store) (meta : gmap string fref) (chat rt stt : Z) (k html p : string),
  meta !! k = None -> load_snip_md st k = None -> load_snip_html st k = Some html ->
  is_Some (snips st !! p) -> starts_with (k +:+ "_") p = true ->
  In p (flat_map send_files (tag_sends st meta chat rt stt k)).
Proof.
  intros st meta chat rt stt k html p Hm Hmd Hhtml Hp Hpre.
  unfold tag_sends. rewrite Hm, Hmd, Hhtml.
  assert (Hin : In p (glob_media st k)) by (by apply glob_media_in).
  unfold html_snip_sends. cbv zeta.
  assert (Hbundle : In p (flat_map send_files
            (match html_media_group html (glob_media st k) with
             | [] => [SendMessage chat html (Some HTML) (Some rt)]
             | media_group => [SendMediaGroup chat media_group rt]
             end))).
  { pose proof (html_media_group_files html (glob_media st k)) as Hf.
    destruct (html_media_group html (glob_media st k)) eqn:Hg.
    - rewrite <- Hf in Hin. destruct Hin.
    - cbn [flat_map send_files]. rewrite app_nil_r, Hf. exact Hin. }
  destruct (glob_media st k) as [|q [|q2 l]] eqn:G; [destruct Hin| |exact Hbundle].
  destruct (is_voice_ext (file_ext q)); [|exact Hbundle].
  destruct Hin as [<-|[]]. simpl. by left.
Qed.

Definition st_prefix : store :=
  mk_store (<["a.html" := "A"]> (<["a_0.jpg" := ""]> (<["a_b.html" := "B"]> ∅))) None.

Lemma html_snippet_bundles_prefix_files_witness :
  In "a_b.html" (flat_map send_files (tag_sends st_prefix ∅ 1 10 10 "a")).
Proof.
  apply (html_snippet_bundles_prefix_files st_prefix ∅ 1 10 10 "a" "A" "a_b.html");
    vm_compute; try reflexivity; eauto.
Defined.

(* ------------------------------------------------------------------ *)
(** ** What the save commands write *)

Definition loop_files (r : loop_result) : gmap string string :=
  match r with LoopOk files _ _ | LoopRaised files _ => files end.

Definition loop_effects (r : loop_result) : list effect :=
  match r with LoopOk _ _ effs | LoopRaised _ effs => effs end.

(** An effect that is not a Telegram message. *)
Definition not_a_send (e : effect) : Prop := forall s, e <> ESend s.

Lemma starts_with_app_l (k a b : string) : starts_with (k +:+ a) (k +:+ b) = starts_with a b.
Proof. induction k as [|c k IH]; [done|]. rewrite !str_app_cons. simpl. by rewrite Ascii.eqb_refl. Qed.

Lemma html_not_media (k : string) : starts_with (k +:+ "_") (k +:+ ".html") = false.
Proof. by rewrite starts_with_app_l. Qed.

Lemma md_not_media (k : string) : starts_with (k +:+ "_") (k +:+ ".md") = false.
Proof. by rewrite starts_with_app_l. Qed.

Lemma md_not_html (k : string) : k +:+ ".md" <> k +:+ ".html".
Proof. intros H. apply (inj (String.append k)) in H. discriminate. Qed.

Lemma save_path_prefix (key : string) (idx : nat) (suffix : string) :
  starts_with (key +:+ "_") (key +:+ "_" +:+ string_of_nat idx +:+ suffix) = true.
Proof. rewrite starts_with_app_l. reflexivity. Qed.

(** The download loop writes only files named [key_...] and records no
    Telegram message. *)
Lemma download_loop_footprint fetch fname_of (key : string) (ents : list attachment) :
  forall idx files saved effs p,
  loop_files (download_loop fetch fname_of key idx ents files saved effs) !! p <> files !! p ->
  starts_with (key +:+ "_") p = true.
Proof.
  induction ents as [|ent ents IH]; intros idx files saved effs p H; simpl in H; [done|].
  destruct (fetch ent) as [|fp dl]; [done|]. destruct (fname_of ent fp) as [fname|]; [|done].
  destruct dl as [data|]; [|by eapply IH].
  set (sp := key +:+ "_" +:+ string_of_nat idx +:+ path_suffix (path_name fname)) in H.
  destruct (decide (p = sp)) as [->|Hne]; [apply save_path_prefix|].
  eapply (IH (S idx) (<[sp := data]> files)). rewrite lookup_insert_ne by congruence. exact H.
Qed.

Lemma download_loop_no_send fetch fname_of (key : string) (ents : list attachment) :
  forall idx files saved effs,
  Forall not_a_send effs ->
  Forall not_a_send (loop_effects (download_loop fetch fname_of key idx ents files saved effs)).
Proof.
  induction ents as [|ent ents IH]; intros idx files saved effs H; simpl; [done|].
  assert (H1 : Forall not_a_send (effs ++ [EGetFile (att_file_id ent)])%list)
    by (apply Forall_app_2; [done|repeat constructor; intros ? [=]]).
  destruct (fetch ent) as [|fp dl]; [done|]. destruct (fname_of ent fp) as [fname|]; [|done].
  assert (H2 : forall sp, Forall not_a_send ((effs ++ [EGetFile (att_file_id ent)]) ++ [EDownload (att_file_id ent) sp])%list)
    by (intros sp; apply Forall_app_2; [done|repeat constructor; intros ? [=]]).
  destruct dl; apply IH, H2.
Qed.

Lemma save_snips_footprint (admins : list Z) fetch (st : store) (cmd : command) (p : string) :
  snips (outcome_store (handle_save admins fetch st cmd)) !! p <> snips st !! p ->
  exists arg args, cmd_args cmd = arg :: args
    /\ (p = lower arg +:+ ".html" \/ starts_with (lower arg +:+ "_") p = true).
Proof.
  intros Hq. unfold handle_save in Hq.
  destruct (cmd_reply cmd) as [reply|]; [|done].
  destruct (negb (is_admin admins (cmd_user_id cmd))); [done|].
  destruct (cmd_args cmd) as [|arg args]; [done|]. exists arg, args. split; [done|].
  cbv zeta in Hq. destruct (MAX_MEDIA_SAVE_SIZE <? _)%Z; [done|].
  pose proof (download_loop_footprint fetch save_fname (lower arg) (media_entries reply) 0 (snips st)
                [lower arg +:+ ".html"] [] p) as Hfp.
  destruct (download_loop fetch save_fname (lower arg) 0 (media_entries reply) (snips st)
              [lower arg +:+ ".html"] []) as [files saved effs|files effs]; simpl in Hq, Hfp.
  - destruct (decide (p = lower arg +:+ ".html")) as [|Hne]; [by left|right].
    rewrite lookup_insert_ne in Hq by congruence. by apply Hfp.
  - right. by apply Hfp.
Qed.

Lemma savespicy_snips_footprint (admins : list Z) fetch (st : store) (cmd : command) (p : string) :
  snips (outcome_store (handle_savespicy admins fetch st cmd)) !! p <> snips st !! p ->
  exists arg args, cmd_args cmd = arg :: args
    /\ (p = ("spicy-" +:+ lower arg) +:+ ".html"
        \/ starts_with (("spicy-" +:+ lower arg) +:+ "_") p = true).
Proof.
  intros Hq. unfold handle_savespicy in Hq.
  destruct (cmd_reply cmd) as [reply|]; [|done].
  destruct (negb (is_admin admins (cmd_user_id cmd))); [done|].
  destruct (cmd_args cmd) as [|arg args]; [done|]. exists arg, args. split; [done|].
  cbv zeta in Hq.
  pose proof (download_loop_footprint fetch spicy_fname ("spicy-" +:+ lower arg) (media_entries reply) 0
                (snips st) [("spicy-" +:+ lower arg) +:+ ".html"] [] p) as Hfp.
  destruct (download_loop fetch spicy_fname ("spicy-" +:+ lower arg) 0 (media_entries reply) (snips st)
              [("spicy-" +:+ lower arg) +:+ ".html"] []) as [files saved effs|files effs]; simpl in Hq, Hfp.
  - destruct (decide (p = ("spicy-" +:+ lower arg) +:+ ".html")) as [|Hne]; [by left|right].
    rewrite lookup_insert_ne in Hq by congruence. by apply Hfp.
  - right. by apply Hfp.
Qed.

(** [/save] and [/saveng] write only the files of their key [k] (its text
    artifact [k.html] and files named [k_...]) and change only the entry
    [k] of [meta.yaml], whether they complete or raise. *)
Theorem handle_save_footprint : forall (admins : list Z) fetch (st : store) (cmd : command),
  (forall p, snips (outcome_store (handle_save admins fetch st cmd)) !! p <> snips st !! p ->
     exists arg args, cmd_args cmd = arg :: args
       /\ (p = lower arg +:+ ".html" \/ starts_with (lower arg +:+ "_") p = true))
  /\ (forall k, load_meta (outcome_store (handle_save admins fetch st cmd)) !! k <> load_meta st !! k ->
     exists arg args, cmd_args cmd = arg :: args /\ k = lower arg).
Proof.
  intros admins fetch st cmd. split; [apply save_snips_footprint|]. intros q Hq.
  unfold handle_save in Hq |- *.
  destruct (cmd_reply cmd) as [reply|]; [|done].
  destruct (negb (is_admin admins (cmd_user_id cmd))); [done|].
  destruct (cmd_args cmd) as [|arg args]; [done|]. exists arg, args. split; [done|].
  destruct (decide (q = lower arg)) as [|Hne]; [done|]. exfalso. apply Hq.
  cbv zeta. destruct (MAX_MEDIA_SAVE_SIZE <? _)%Z.
  - unfold load_meta at 1. simpl. by rewrite lookup_insert_ne by congruence.
  - destruct (download_loop _ _ _ _ _ _ _ _) as [files saved effs|files effs]; simpl; [|done].
    unfold load_meta, drop_forward_ref. simpl. destruct (meta st) as [mm|]; [|done].
    destruct (mm !! lower arg); simpl; [|done]. by rewrite lookup_delete_ne by congruence.
Qed.

Lemma handle_save_footprint_witness :
  exists arg args, cmd_args (cmd_save 1 [photo_att "a" 10] ["K"]) = arg :: args
    /\ ("k_0.jpg" = lower arg +:+ ".html" \/ starts_with (lower arg +:+ "_") "k_0.jpg" = true).
Proof.
  apply (proj1 (handle_save_footprint [1%Z] fetch_ok st_empty (cmd_save 1 [photo_att "a" 10] ["K"]))).
  vm_compute. discriminate.
Defined.

(** [/savespicy w] writes only the files of the key [spicy-w] and leaves
    [meta.yaml] as it is, whether it completes or raises. *)
Theorem handle_savespicy_footprint : forall (admins : list Z) fetch (st : store) (cmd : command),
  (forall p, snips (outcome_store (handle_savespicy admins fetch st cmd)) !! p <> snips st !! p ->
     exists arg args, cmd_args cmd = arg :: args
       /\ (p = ("spicy-" +:+ lower arg) +:+ ".html"
           \/ starts_with (("spicy-" +:+ lower arg) +:+ "_") p = true))
  /\ meta (outcome_store (handle_savespicy admins fetch st cmd)) = meta st.
Proof.
  intros admins fetch st cmd. split; [apply savespicy_snips_footprint|].
  unfold handle_savespicy.
  destruct (cmd_reply cmd) as [reply|]; [|done].
  destruct (negb (is_admin admins (cmd_user_id cmd))); [done|].
  destruct (cmd_args cmd) as [|arg args]; [done|].
  cbv zeta. by destruct (download_loop _ _ _ _ _ _ _ _).
Qed.

Definition cmd_spicy (atts : list attachment) (args : list string) : command :=
  mk_cmd 1 "ann" 9 (Some (src_with atts None)) args.

Lemma handle_savespicy_footprint_witness :
  exists arg args, cmd_args (cmd_spicy [photo_att "a" 10] ["Ouch"]) = arg :: args
    /\ ("spicy-ouch_0.jpg" = ("spicy-" +:+ lower arg) +:+ ".html"
        \/ starts_with (("spicy-" +:+ lower arg) +:+ "_") "spicy-ouch_0.jpg" = true).
Proof.
  apply (proj1 (handle_savespicy_footprint [1%Z] fetch_ok st_empty (cmd_spicy [photo_att "a" 10] ["Ouch"]))).
  vm_compute. discriminate.
Defined.

(** When fetching an attachment raises during [/save], the exception
    escapes before the text artifact or [meta.yaml] is written: the key's
    [.html] file and [meta.yaml] are as before and no message was sent
    (media downloaded before the failure stay on disk). *)
Theorem handle_save_fetch_failure :
  forall (admins : list Z) fetch (st st' : store) (cmd : command) (effs : list effect),
  handle_save admins fetch st cmd = Raised st' effs ->
  exists arg args, cmd_args cmd = arg :: args
    /\ snips st' !! (lower arg +:+ ".html") = snips st !! (lower arg +:+ ".html")
    /\ meta st' = meta st
    /\ Forall not_a_send effs.
Proof.
  intros admins fetch st st' cmd effs H. unfold handle_save in H.
  destruct (cmd_reply cmd) as [reply|]; [|done].
  destruct (negb (is_admin admins (cmd_user_id cmd))); [done|].
  destruct (cmd_args cmd) as [|arg args]; [done|]. exists arg, args. split; [done|].
  cbv zeta in H. destruct (MAX_MEDIA_SAVE_SIZE <? _)%Z; [done|].
  pose proof (download_loop_footprint fetch save_fname (lower arg) (media_entries reply) 0 (snips st)
                [lower arg +:+ ".html"] [] (lower arg +:+ ".html")) as Hfp.
  pose proof (download_loop_no_send fetch save_fname (lower arg) (media_entries reply) 0 (snips st)
                [lower arg +:+ ".html"] [] (Forall_nil_2 _)) as Hns.
  destruct (download_loop fetch save_fname (lower arg) 0 (media_entries reply) (snips st)
              [lower arg +:+ ".html"] []) as [files saved effs0|files effs0]; [done|].
  injection H as <- <-. simpl in Hfp, Hns |- *. split; [|split; [done|exact Hns]].
  destruct (decide (files !! (lower arg +:+ ".html") = snips st !! (lower arg +:+ ".html"))) as [Heq|Hne];
    [exact Heq|]. apply Hfp in Hne. by rewrite html_not_media in Hne.
Qed.

Definition fetch_fails (ent : attachment) : fetch_result :=
  if String.eqb (att_file_id ent) "b" then FetchRaises else fetch_ok ent.

(** [/save K] replying to a message with a document [x.pdf] and a video
    note whose [get_file] raises. *)
Definition cmd_fail : command :=
  mk_cmd 1 "ann" 9 (Some (mk_src 77 500 None None [] (Some (mk_att "a" "au" (Some 5%Z) (Some (Some "x.pdf"))))
                         None None None None (Some (photo_att "b" 5)))) ["K"].

Lemma handle_save_fetch_failure_witness :
  exists arg args, cmd_args cmd_fail = arg :: args
    /\ snips (mk_store (<["k_0.pdf" := "data"]> ∅) None) !! (lower arg +:+ ".html")
       = snips st_empty !! (lower arg +:+ ".html")
    /\ meta (mk_store (<["k_0.pdf" := "data"]> ∅) None) = meta st_empty
    /\ Forall not_a_send [EGetFile "a"; EDownload "a" "k_0.pdf"; EGetFile "b"].
Proof.
  apply (handle_save_fetch_failure [1%Z] fetch_fails st_empty _ cmd_fail).
  vm_compute. reflexivity.
Defined.

(* ------------------------------------------------------------------ *)
(** ** Saving, then asking for the snippet *)

Lemma save_done_store (admins : list Z) fetch (st st' : store) (cmd : command) (effs : list effect) :
  handle_save admins fetch st cmd = Done st' effs -> outcome_store (handle_save admins fetch st cmd) = st'.
Proof. by intros ->. Qed.

Lemma savespicy_done_store (admins : list Z) fetch (st st' : store) (cmd : command) (effs : list effect) :
  handle_savespicy admins fetch st cmd = Done st' effs -> outcome_store (handle_savespicy admins fetch st cmd) = st'.
Proof. by intros ->. Qed.

(** A completed save of [k] leaves [k.md] as it was. *)
Lemma save_keeps_md (admins : list Z) fetch (st st' : store) (cmd : command) (arg : string)
    (args : list string) (effs : list effect) :
  cmd_args cmd = arg :: args -> handle_save admins fetch st cmd = Done st' effs ->
  snips st' !! (lower arg +:+ ".md") = snips st !! (lower arg +:+ ".md").
Proof.
  intros Hargs Hs.
  destruct (decide (snips st' !! (lower arg +:+ ".md") = snips st !! (lower arg +:+ ".md"))) as [|Hne]; [done|].
  rewrite <- (save_done_store admins fetch st st' cmd effs Hs) in Hne.
  apply save_snips_footprint in Hne as (arg' & args' & Hargs' & Hp).
  rewrite Hargs in Hargs'. injection Hargs' as <- _.
  destruct Hp as [Hp|Hp]; [by apply md_not_html in Hp|by rewrite md_not_media in Hp].
Qed.

(** The reply to [#k] once [meta.yaml] has no entry for [k]. *)
Lemma hashtag_reply (st : store) (chat mid : Z) (arg : string) :
  nonempty arg = true -> str_forall is_tag_char arg = true -> load_meta st !! lower arg = None ->
  exists rest, handle_message st chat (mk_message mid (Some ("#" +:+ arg)) None)
    = (tag_sends st (load_meta st) chat mid mid (lower arg) ++ rest)%list.
Proof.
  intros Hne Hw Hm. rewrite (handle_message_sends st chat _ ("#" +:+ arg)); [|done|done|].
  - rewrite extract_hashtags_single by done. cbn [flat_map explicit_reply_target message_id reply_to_message].
    rewrite app_nil_r. eexists. reflexivity.
  - left. by rewrite extract_hashtags_single.
Qed.

(** After a completed local [/save K] (no [k.md] with [k = lower K]), the
    hashtag [#K] is answered from the HTML artifact the save wrote. *)
Theorem save_then_hashtag_serves_html :
  forall (admins : list Z) fetch (st st' : store) (cmd : command) (reply : source_message)
         (arg : string) (args : list string) (effs : list effect) (chat mid : Z),
  cmd_reply cmd = Some reply -> is_admin admins (cmd_user_id cmd) = true -> cmd_args cmd = arg :: args ->
  (total_media_size (media_entries reply) <= MAX_MEDIA_SAVE_SIZE)%Z ->
  nonempty arg = true -> str_forall is_tag_char arg = true ->
  snips st !! (lower arg +:+ ".md") = None ->
  handle_save admins fetch st cmd = Done st' effs ->
  exists rest, handle_message st' chat (mk_message mid (Some ("#" +:+ arg)) None)
    = (html_snip_sends st' chat (lower arg) (html_body (body_parts reply)) mid mid mid ++ rest)%list.
Proof.
  intros admins fetch st st' cmd reply arg args effs chat mid Hr Ha Hargs Hle Hne Hw Hmd Hs.
  destruct (handle_save_local admins fetch st st' cmd reply arg args effs Hr Ha Hargs Hle Hs) as [Hm Hh].
  pose proof (save_keeps_md admins fetch st st' cmd arg args effs Hargs Hs) as Hmd'.
  destruct (hashtag_reply st' chat mid arg Hne Hw Hm) as [rest ->]. exists rest.
  unfold tag_sends. rewrite Hm. unfold load_snip_md, load_snip_html. by rewrite Hmd', Hmd, Hh.
Qed.

Lemma save_then_hashtag_serves_html_witness :
  exists rest,
    handle_message (mk_store (<["k.html" := "look" +:+ String "010" ""]> (<["k_0.jpg" := "data"]> ∅)) (Some ∅))
      1 (mk_message 10 (Some ("#" +:+ "K")) None)
    = (html_snip_sends (mk_store (<["k.html" := "look" +:+ String "010" ""]> (<["k_0.jpg" := "data"]> ∅)) (Some ∅))
         1 (lower "K") (html_body (body_parts (src_with [photo_att "a" 10] None))) 10 10 10 ++ rest)%list.
Proof.
  apply (save_then_hashtag_serves_html [1%Z] fetch_ok (mk_store ∅ (Some {[ "k" := mk_fref 3 4 ]})) _
           (cmd_save 1 [photo_att "a" 10] ["K"]) (src_with [photo_att "a" 10] None) "K" []
           [EGetFile "a"; EDownload "a" "k_0.jpg";
            ERecordChange ["k.html"; "k_0.jpg"; "meta.yaml"] "#k added by @ann";
            reply_text 9 "Saved snip 'k' (HTML mode)"] 1 10);
    try reflexivity; vm_compute; discriminate.
Defined.

(** A local [/save K] does not replace a markdown snippet [k.md]: after
    it, [#K] is still answered from [k.md] and the HTML artifact the save
    wrote is never read. *)
Theorem save_shadowed_by_markdown :
  forall (admins : list Z) fetch (st st' : store) (cmd : command) (reply : source_message)
         (arg : string) (args : list string) (effs : list effect) (chat mid : Z) (md : string),
  cmd_reply cmd = Some reply -> is_admin admins (cmd_user_id cmd) = true -> cmd_args cmd = arg :: args ->
  (total_media_size (media_entries reply) <= MAX_MEDIA_SAVE_SIZE)%Z ->
  nonempty arg = true -> str_forall is_tag_char arg = true ->
  snips st !! (lower arg +:+ ".md") = Some md ->
  handle_save admins fetch st cmd = Done st' effs ->
  exists rest, handle_message st' chat (mk_message mid (Some ("#" +:+ arg)) None)
    = (md_snip_sends st' chat md mid mid mid mid mid ++ rest)%list.
Proof.
  intros admins fetch st st' cmd reply arg args effs chat mid md Hr Ha Hargs Hle Hne Hw Hmd Hs.
  destruct (handle_save_local admins fetch st st' cmd reply arg args effs Hr Ha Hargs Hle Hs) as [Hm _].
  pose proof (save_keeps_md admins fetch st st' cmd arg args effs Hargs Hs) as Hmd'.
  destruct (hashtag_reply st' chat mid arg Hne Hw Hm) as [rest ->]. exists rest.
  unfold tag_sends. rewrite Hm. unfold load_snip_md. by rewrite Hmd', Hmd.
Qed.

Definition st_md_k : store := mk_store (<["k.md" := "old"]> ∅) None.

Lemma save_shadowed_by_markdown_witness :
  exists rest,
    handle_message (mk_store (<["k.html" := "look" +:+ String "010" ""]> (<["k_0.jpg" := "data"]> (<["k.md" := "old"]> ∅))) None)
      1 (mk_message 10 (Some ("#" +:+ "K")) None)
    = (md_snip_sends (mk_store (<["k.html" := "look" +:+ String "010" ""]> (<["k_0.jpg" := "data"]> (<["k.md" := "old"]> ∅))) None)
         1 "old" 10 10 10 10 10 ++ rest)%list.
Proof.
  apply (save_shadowed_by_markdown [1%Z] fetch_ok st_md_k _
           (cmd_save 1 [photo_att "a" 10] ["K"]) (src_with [photo_att "a" 10] None) "K" []
           [EGetFile "a"; EDownload "a" "k_0.jpg";
            ERecordChange ["k.html"; "k_0.jpg"; "meta.yaml"] "#k added by @ann";
            reply_text 9 "Saved snip 'k' (HTML mode)"] 1 10 "old");
    try reflexivity; vm_compute; discriminate.
Defined.

(* ------------------------------------------------------------------ *)
(** ** Trigger words *)

Lemma spicy_trigger_in (st : store) (w : string) :
  is_Some (snips st !! ("spicy-" +:+ (w +:+ ".html"))) -> In (lower w) (load_spicy_triggers st).
Proof.
  intros Hs. unfold load_spicy_triggers. apply in_flat_map.
  exists ("spicy-" +:+ (w +:+ ".html")). split; [by apply in_dir_names|].
  assert (glob_spicy_html ("spicy-" +:+ (w +:+ ".html")) = true) as Hg
    by (apply glob_spicy_html_spec; eauto).
  rewrite Hg, path_stem_spicy, after_first_spicy. by left.
Qed.

(** [\b] holds somewhere at or before a word character. *)
Lemma boundary_before (ls : list ascii) (i : nat) :
  word_at ls i = true -> exists j, (j <= i)%nat /\ boundary ls j = true.
Proof.
  induction i as [|i IH]; intros Hi.
  - exists 0%nat. split; [lia|]. unfold boundary. by rewrite Hi.
  - destruct (word_at ls i) eqn:Hw.
    + destruct (IH eq_refl) as [j [Hj Hb]]. exists j. split; [lia|done].
    + exists (S i). split; [lia|]. unfold boundary. by rewrite Hw, Hi.
Qed.

Lemma word_at_lower (s : string) (i : nat) :
  word_at (list_ascii_of_string (lower s)) i = word_at (list_ascii_of_string s) i.
Proof.
  unfold word_at. rewrite list_ascii_lower.
  change (map ascii_lower (list_ascii_of_string s)) with (ascii_lower <$> list_ascii_of_string s).
  rewrite list_lookup_fmap. destruct (list_ascii_of_string s !! i); simpl; [apply ascii_lower_word|done].
Qed.

Lemma search_word_self (t : string) :
  nonempty t = true -> str_forall is_word_char t = true -> search_word t t = true.
Proof.
  intros Hne Hw. unfold search_word. cbn [seq existsb].
  apply orb_true_iff. left. apply andb_true_iff. split; [apply andb_true_iff; split|].
  - destruct t as [|c t]; [done|]. unfold boundary, word_at. simpl in Hw |- *.
    by destruct (is_word_char c).
  - cbn [str_drop]. apply starts_with_spec. exists "". by rewrite str_app_nil_r.
  - unfold boundary. simpl. destruct (String.length t) as [|n] eqn:Hl; [by destruct t|].
    unfold word_at.
    rewrite (lookup_ge_None_2 (list_ascii_of_string t) (S n)) by (rewrite length_list_ascii; lia).
    destruct (list_ascii_of_string t !! n) as [c|] eqn:Hc.
    + by rewrite (str_forall_lookup is_word_char t n c Hw Hc).
    + apply lookup_ge_None in Hc. rewrite length_list_ascii in Hc. lia.
Qed.

(** After a completed [/savespicy W] with a word [W] of ASCII letters,
    digits and [_] (and no [spicy-w.md] for [w = lower W]), a message whose text is [W]
    is answered with the HTML artifact the command wrote, under that
    message. *)
Theorem savespicy_then_word_triggers :
  forall (admins : list Z) fetch (st st' : store) (cmd : command) (reply : source_message)
         (arg : string) (args : list string) (effs : list effect) (chat mid : Z),
  cmd_reply cmd = Some reply -> is_admin admins (cmd_user_id cmd) = true -> cmd_args cmd = arg :: args ->
  nonempty arg = true -> str_forall is_word_char arg = true ->
  snips st !! (("spicy-" +:+ lower arg) +:+ ".md") = None ->
  handle_savespicy admins fetch st cmd = Done st' effs ->
  exists pre post, handle_message st' chat (mk_message mid (Some arg) None)
    = (pre ++ html_snip_sends st' chat ("spicy-" +:+ lower arg)
                (strip (join_nl (body_parts reply)) +:+ String "010" EmptyString) mid mid mid ++ post)%list.
Proof.
  intros admins fetch st st' cmd reply arg args effs chat mid Hr Ha Hargs Hne Hw Hmd Hs.
  set (k := lower arg). set (body := strip (join_nl (body_parts reply)) +:+ String "010" EmptyString).
  (* the store after the command *)
  assert (Hh : snips st' !! (("spicy-" +:+ k) +:+ ".html") = Some body).
  { unfold handle_savespicy in Hs. rewrite Hr, Hargs in Hs. rewrite Ha in Hs. cbv zeta in Hs.
    cbn [negb] in Hs.
    destruct (download_loop _ _ _ _ _ _ _ _); [|discriminate]. injection Hs as <- _. apply lookup_insert_eq. }
  assert (Hmd' : snips st' !! (("spicy-" +:+ k) +:+ ".md") = None).
  { destruct (decide (snips st' !! (("spicy-" +:+ k) +:+ ".md") = snips st !! (("spicy-" +:+ k) +:+ ".md")))
      as [->|Hne']; [done|].
    rewrite <- (savespicy_done_store admins fetch st st' cmd effs Hs) in Hne'.
    apply savespicy_snips_footprint in Hne' as (arg' & args' & Hargs' & Hp).
    rewrite Hargs in Hargs'. injection Hargs' as <- _.
    destruct Hp as [Hp|Hp]; [by apply md_not_html in Hp|by rewrite md_not_media in Hp]. }
  (* the word is a trigger and matches the text *)
  assert (Hin : In k (extract_spicy_triggers arg (load_spicy_triggers st'))).
  { apply filter_In. split.
    - assert (Hk : k = lower k) by (symmetry; apply lower_idem). rewrite Hk at 1.
      apply spicy_trigger_in. rewrite str_app_assoc, Hh. eauto.
    - unfold k. apply search_word_self; [by rewrite lower_nonempty|].
      rewrite str_forall_lower; [done|apply ascii_lower_word]. }
  rewrite (handle_message_sends st' chat _ arg); [|done|done|right; intros Hnil; rewrite Hnil in Hin; destruct Hin].
  apply in_split in Hin as (l1 & l2 & Hsplit). rewrite Hsplit, flat_map_app. cbn [flat_map].
  assert (Ht : trigger_sends st' chat mid mid k = html_snip_sends st' chat ("spicy-" +:+ k) body mid mid mid).
  { unfold trigger_sends, load_snip_md, load_snip_html. by rewrite Hmd', Hh. }
  cbn [explicit_reply_target message_id reply_to_message]. rewrite Ht.
  rewrite app_assoc. eexists _, _. reflexivity.
Qed.

Definition spicy_effs : list effect :=
  [EGetFile "a"; EDownload "a" "spicy-ouch_0.jpg";
   ERecordChange ["spicy-ouch.html"; "spicy-ouch_0.jpg"] "#spicy-ouch added by @ann";
   reply_text 9 "Saved spicy snip 'ouch' (HTML mode)"].

Definition st_after_spicy : store :=
  mk_store (<["spicy-ouch.html" := "look" +:+ String "010" ""]> (<["spicy-ouch_0.jpg" := "data"]> ∅)) None.

Lemma savespicy_then_word_triggers_witness :
  exists pre post, handle_message st_after_spicy 1 (mk_message 10 (Some "Ouch") None)
    = (pre ++ html_snip_sends st_after_spicy 1 ("spicy-" +:+ lower "Ouch")
                (strip (join_nl (body_parts (src_with [photo_att "a" 10] None))) +:+ String "010" EmptyString)
                10 10 10 ++ post)%list.
Proof.
  apply (savespicy_then_word_triggers [1%Z] fetch_ok st_empty st_after_spicy (cmd_spicy [photo_att "a" 10] ["Ouch"])
           (src_with [photo_att "a" 10] None) "Ouch" [] spicy_effs 1 10);
    vm_compute; reflexivity.
Defined.

(** A file [spicy-.html] (the empty trigger word) makes the bot answer
    every message whose text has a word character: [\b\b] matches at the
    first word character, and the key [spicy-] has that artifact. *)
Theorem empty_trigger_answers_every_word :
  forall (st : store) (chat mid : Z) (rto : option Z) (txt h : string),
  snips st !! "spicy-.html" = Some h -> snips st !! "spicy-.md" = None ->
  (exists i c, list_ascii_of_string txt !! i = Some c /\ is_word_char c = true) ->
  exists pre post, handle_message st chat (mk_message mid (Some txt) rto)
    = (pre ++ html_snip_sends st chat "spicy-" h mid mid mid ++ post)%list.
Proof.
  intros st chat mid rto txt h Hh Hmd (i & c & Hi & Hc).
  assert (Hin : In "" (extract_spicy_triggers txt (load_spicy_triggers st))).
  { apply filter_In. split.
    - apply (spicy_trigger_in st ""). change ("spicy-" +:+ ("" +:+ ".html")) with "spicy-.html".
      rewrite Hh. eauto.
    - unfold search_word. apply existsb_exists.
      assert (Hw : word_at (list_ascii_of_string (lower txt)) i = true)
        by (rewrite word_at_lower; unfold word_at; by rewrite Hi).
      destruct (boundary_before _ i Hw) as [j [Hj Hb]]. exists j. split.
      + apply in_seq. apply lookup_lt_Some in Hi. rewrite length_list_ascii in Hi.
        rewrite length_list_ascii, lower_length. lia.
      + rewrite Hb. simpl. by rewrite Nat.add_0_r, Hb. }
  assert (Hne : nonempty txt = true) by (destruct txt; [done|reflexivity]).
  rewrite (handle_message_sends st chat _ txt); [|done|done|right; intros Hnil; rewrite Hnil in Hin; destruct Hin].
  apply in_split in Hin as (l1 & l2 & Hsplit). rewrite Hsplit, flat_map_app. cbn [flat_map].
  assert (Ht : trigger_sends st chat (explicit_reply_target (mk_message mid (Some txt) rto)) mid ""
               = html_snip_sends st chat "spicy-" h mid mid mid).
  { unfold trigger_sends, load_snip_md, load_snip_html. cbv zeta.
    change (("spicy-" +:+ "") +:+ ".md") with "spicy-.md". change (("spicy-" +:+ "") +:+ ".html") with "spicy-.html".
    rewrite Hmd, Hh. reflexivity. }
  cbn [message_id]. rewrite Ht. rewrite app_assoc. eexists _, _. reflexivity.
Qed.

Definition st_empty_trigger : store := mk_store (<["spicy-.html" := "!"]> ∅) None.

Lemma empty_trigger_answers_every_word_witness :
  exists pre post, handle_message st_empty_trigger 1 (mk_message 10 (Some "hi there") None)
    = (pre ++ html_snip_sends st_empty_trigger 1 "spicy-" "!" 10 10 10 ++ post)%list.
Proof.
  apply (empty_trigger_answers_every_word st_empty_trigger 1 10 None "hi there" "!");
    [reflexivity|reflexivity|]. exists 0%nat, "h"%char. split; reflexivity.
Defined.

Lemma starts_with_length (p s : string) :
  starts_with p s = true -> (String.length p <= String.length s)%nat.
Proof. intros [u ->]%starts_with_spec. rewrite str_length_app. lia. Qed.

Lemma str_drop_length (i : nat) (s : string) : String.length (str_drop i s) = (String.length s - i)%nat.
Proof.
  revert s. induction i as [|i IH]; intros s; [simpl; lia|].
  destruct s as [|c s]; [done|]. simpl. apply IH.
Qed.

Lemma list_ascii_app (s1 s2 : string) :
  list_ascii_of_string (s1 +:+ s2) = (list_ascii_of_string s1 ++ list_ascii_of_string s2)%list.
Proof. induction s1 as [|c s1 IH]; [done|]. rewrite str_app_cons. simpl. by rewrite IH. Qed.

(** A trigger word that begins or ends with a character outside [\w]
    (as [/savespicy :)] or [/savespicy hi!] create) never matches a
    message consisting of the word alone: [\b] cannot hold at that edge. *)
Theorem nonword_edge_trigger_never_alone : forall (w : string) (ts : list string),
  ((exists c w', w = String c w' /\ is_word_char c = false)
   \/ (exists w' c, w = w' +:+ String c EmptyString /\ is_word_char c = false)) ->
  ~ In w (extract_spicy_triggers w ts).
Proof.
  intros w ts Hedge Hin. apply filter_In in Hin as [_ Hs].
  assert (Hlen : (1 <= String.length w)%nat).
  { destruct Hedge as [(c & w' & -> & _)|(w' & c & -> & _)]; [simpl; lia|].
    rewrite str_length_app. simpl. lia. }
  unfold search_word in Hs. apply existsb_exists in Hs as [i [_ Hb]].
  apply andb_true_iff in Hb as [Hb Hend]. apply andb_true_iff in Hb as [Hstart Hst].
  destruct i as [|i].
  2: { apply starts_with_length in Hst. rewrite str_drop_length, lower_length in Hst. lia. }
  destruct Hedge as [(c & w' & -> & Hc)|(w' & c & -> & Hc)].
  - unfold boundary in Hstart. rewrite word_at_lower in Hstart. unfold word_at in Hstart.
    simpl in Hstart. by rewrite Hc in Hstart.
  - unfold boundary in Hend. rewrite str_length_app in Hend. simpl in Hend.
    rewrite Nat.add_1_r, !word_at_lower in Hend. unfold word_at in Hend. rewrite list_ascii_app in Hend.
    rewrite (lookup_app_r (list_ascii_of_string w')) in Hend by (rewrite length_list_ascii; lia).
    rewrite (lookup_app_r (list_ascii_of_string w')) in Hend by (rewrite length_list_ascii; lia).
    rewrite length_list_ascii, Nat.sub_diag in Hend.
    replace (S (String.length w') - String.length w')%nat with 1%nat in Hend by lia.
    simpl in Hend. by rewrite Hc in Hend.
Qed.

Lemma nonword_edge_trigger_never_alone_witness : ~ In ":)" (extract_spicy_triggers ":)" [":)"]).
Proof.
  apply (nonword_edge_trigger_never_alone ":)" [":)"]). left. exists ":"%char, ")". split; reflexivity.
Defined.

(* ------------------------------------------------------------------ *)
(** ** [/listng] *)

Lemma listng_chunks_concat (tags : list string) : forall chunk : string,
  fold_right String.append "" (listng_chunks chunk tags)
  = chunk +:+ fold_right String.append "" (map listng_part tags).
Proof.
  induction tags as [|tag tags IH]; intros chunk; simpl.
  - destruct chunk as [|c chunk]; simpl; [done|]. by rewrite str_app_nil_r.
  - destruct (4000 <? _)%nat; simpl; rewrite IH; [done|]. symmetry. apply str_app_assoc.
Qed.

Lemma listng_part_length (tag : string) : String.length (listng_part tag) = (String.length tag + 2)%nat.
Proof. unfold listng_part. rewrite str_app_cons, str_app_nil_l. cbn [String.length]. rewrite str_length_app. simpl. lia. Qed.

Lemma listng_chunks_bounded (tags : list string) : forall chunk : string,
  (String.length chunk <= 4000)%nat -> Forall (fun t => String.length t <= 3998)%nat tags ->
  Forall (fun c => nonempty c = true /\ String.length c <= 4000)%nat (listng_chunks chunk tags).
Proof.
  induction tags as [|tag tags IH]; intros chunk Hc Ht; cbn [listng_chunks]; cbv zeta.
  - destruct chunk as [|c chunk]; [constructor|].
    apply List.Forall_cons; [split; [reflexivity|exact Hc]|constructor].
  - apply Forall_cons in Ht as [Htag Ht].
    destruct (4000 <? String.length chunk + String.length (listng_part tag))%nat eqn:Hlt.
    + apply Nat.ltb_lt in Hlt. rewrite listng_part_length in Hlt.
      apply List.Forall_cons.
      * split; [|done]. destruct chunk; simpl in Hlt; [lia|done].
      * apply IH; [rewrite listng_part_length; lia|done].
    + apply Nat.ltb_ge in Hlt. apply IH; [by rewrite str_length_app|done].
Qed.

(** When there is a snippet, [/listng] sends the lines [#tag] of all
    snippet keys, in order, split over messages without losing or
    repeating any text. *)
Theorem listng_lists_every_tag : forall (st : store) (chat : Z),
  list_tags st <> [] ->
  exists chunks, handle_listng st chat = map (fun c => SendMessage chat c None None) chunks
    /\ fold_right String.append "" chunks = fold_right String.append "" (map listng_part (list_tags st)).
Proof.
  intros st chat Hne. exists (listng_chunks "" (list_tags st)). split.
  - unfold handle_listng. by destruct (list_tags st).
  - apply listng_chunks_concat.
Qed.

Definition st_list : store :=
  mk_store (<["b.md" := ""]> (<["a_b_0.jpg" := ""]> (<["a_b.html" := ""]> (<["meta.yaml" := ""]> ∅)))) None.

Lemma listng_lists_every_tag_witness :
  exists chunks, handle_listng st_list 1 = map (fun c => SendMessage 1 c None None) chunks
    /\ fold_right String.append "" chunks = fold_right String.append "" (map listng_part (list_tags st_list)).
Proof. apply listng_lists_every_tag. vm_compute. discriminate. Defined.

(** With keys of at most 3998 characters, every [/listng] message is
    non-empty and at most 4000 characters long. *)
Theorem listng_messages_bounded : forall (st : store) (chat : Z),
  Forall (fun t => String.length t <= 3998)%nat (list_tags st) ->
  Forall (fun s => exists t, send_text s = Some t /\ nonempty t = true /\ (String.length t <= 4000)%nat)
         (handle_listng st chat).
Proof.
  intros st chat Ht. unfold handle_listng. destruct (list_tags st) as [|tag tags] eqn:E.
  - repeat constructor. eexists. split; [reflexivity|]. split; [reflexivity|]. simpl. lia.
  - apply Forall_map. eapply Forall_impl; [apply listng_chunks_bounded; [simpl; lia|exact Ht]|].
    intros c [Hc Hl]. eexists. split; [reflexivity|done].
Qed.

Lemma listng_messages_bounded_witness :
  Forall (fun s => exists t, send_text s = Some t /\ nonempty t = true /\ (String.length t <= 4000)%nat)
         (handle_listng st_list 1).
Proof. apply listng_messages_bounded. vm_compute. repeat constructor; lia. Defined.

Lemma in_list_tags (st : store) (t : string) :
  In t (list_tags st) <-> In t (md_tags st ++ html_tags st ++ media_tags st)%list.
Proof.
  unfold list_tags. split.
  - intros H. apply (Permutation_in _ (merge_sort_Permutation String.le _)) in H.
    apply list_elem_of_In, elem_of_elements, elem_of_list_to_set in H. by apply list_elem_of_In.
  - intros H. apply (Permutation_in _ (Permutation_sym (merge_sort_Permutation String.le _))).
    apply list_elem_of_In, elem_of_elements, elem_of_list_to_set. by apply list_elem_of_In.
Qed.




Lemma path_stem_html (k : string) : nonempty k = true -> path_stem (k +:+ ".html") = k.
Proof.
  intros Hne. unfold path_stem, split_suffix. cbv zeta.
  rewrite rev_app_distr. change (String.rev ".html") with "lmth.".
  rewrite !str_app_cons. cbn [str_index Ascii.eqb Bool.eqb andb option_map].
  replace (4 + 2 <=? String.length (k +:+ ".html"))%nat with true
    by (symmetry; apply Nat.leb_le; rewrite str_length_app; destruct k; [done|simpl; lia]).
  cbn [andb fst str_drop]. rewrite str_app_nil_l. apply rev_involutive.
Qed.

(** After a completed local [/save K] with a key [K] of the characters
    [[A-Za-z0-9_-]] and at most 250 of them (so [k.html] is a file name at
    the top of the snippet directory), [/listng] shows the key [lower K]. *)
Theorem save_then_listed :
  forall (admins : list Z) fetch (st st' : store) (cmd : command) (reply : source_message)
         (arg : string) (args : list string) (effs : list effect),
  cmd_reply cmd = Some reply -> is_admin admins (cmd_user_id cmd) = true -> cmd_args cmd = arg :: args ->
  (total_media_size (media_entries reply) <= MAX_MEDIA_SAVE_SIZE)%Z -> nonempty arg = true ->
  str_forall is_tag_char arg = true -> (String.length arg <= 250)%nat ->
  handle_save admins fetch st cmd = Done st' effs ->
  In (lower arg) (list_tags st').
Proof.
  intros admins fetch st st' cmd reply arg args effs Hr Ha Hargs Hle Hne _ _ Hs.
  destruct (handle_save_local admins fetch st st' cmd reply arg args effs Hr Ha Hargs Hle Hs) as [_ Hh].
  apply in_list_tags, in_app_iff. right. apply in_app_iff. left.
  unfold html_tags. apply in_map_iff. exists (lower arg +:+ ".html"). split.
  - apply path_stem_html. by rewrite lower_nonempty.
  - apply filter_In. split; [apply in_dir_names; rewrite Hh; eauto|].
    apply ends_with_spec. eauto.
Qed.

Lemma save_then_listed_witness :
  In (lower "K") (list_tags (mk_store (<["k.html" := "look" +:+ String "010" ""]> (<["k_0.jpg" := "data"]> ∅)) None)).
Proof.
  apply (save_then_listed [1%Z] fetch_ok st_empty _ (cmd_save 1 [photo_att "a" 10] ["K"])
           (src_with [photo_att "a" 10] None) "K" []
           [EGetFile "a"; EDownload "a" "k_0.jpg";
            ERecordChange ["k.html"; "k_0.jpg"; "meta.yaml"] "#k added by @ann";
            reply_text 9 "Saved snip 'k' (HTML mode)"]);
    try reflexivity; try (vm_compute; lia); vm_compute; try discriminate; reflexivity.
Defined.
